(** * photosharing: the backend file utilities (server/utils/fileUtils.js)

    A shallow embedding of the file utility module of the photo sharing
    backend: directory provisioning, the upload directory layout, the
    resize-to-WebP helper and the deletion helpers.

    The module is a sequence of calls into three host libraries (Node's
    [fs] and [path], and the [sharp] image library).  The host is modelled
    below as a small POSIX-like file tree with a fault oracle; the functions
    of the module itself are transcribed statement by statement into a
    state-and-exception monad over that host. *)

From stdpp Require Import gmap strings list fin_maps pretty.
From Stdlib Require Import ZArith Lia Ascii String.

#[local] Set Warnings "-register-all".

Open Scope string_scope.
Open Scope list_scope.

(** ** JavaScript values

    The functions receive arbitrary JavaScript values; the ones that matter
    here are the primitives, arrays and opaque plain objects.  Numbers are
    restricted to integers (no NaN, no fractions); symbols and objects with
    a user-defined conversion are not represented. *)

Inductive jsval :=
| VUndefined
| VNull
| VBool (b : bool)
| VNum (n : Z)
| VStr (s : string)
| VArr (l : list jsval)
| VObj.

(** [!!v] of JavaScript: [undefined], [null], [false], [0] and the empty
    string are falsy. *)
Definition truthy (v : jsval) : bool :=
  match v with
  | VUndefined | VNull => false
  | VBool b => b
  | VNum n => negb (n =? 0)%Z
  | VStr s => negb (String.eqb s "")
  | VArr _ | VObj => true
  end.

(** [typeof v === "string"] *)
Definition is_string (v : jsval) : bool :=
  match v with VStr _ => true | _ => false end.

(** [Array.isArray(v)] *)
Definition isArray (v : jsval) : bool :=
  match v with VArr _ => true | _ => false end.

Fixpoint join_with (sep : string) (l : list string) : string :=
  match l with
  | [] => ""
  | [x] => x
  | x :: rest => x +:+ sep +:+ join_with sep rest
  end.

(** The string conversion of a template literal, [`${v}`]. *)
Fixpoint js_to_string (v : jsval) : string :=
  match v with
  | VUndefined => "undefined"
  | VNull => "null"
  | VBool true => "true"
  | VBool false => "false"
  | VNum n => pretty n
  | VStr s => s
  | VArr l =>
      join_with ","
        (map (fun x => match x with
                       | VUndefined | VNull => ""
                       | _ => js_to_string x
                       end) l)
  | VObj => "[object Object]"
  end.

(** ** Paths: Node's [path] module, POSIX flavour *)

Definition slash : ascii := "/"%char.

Fixpoint split_path (s : string) : list string :=
  match s with
  | EmptyString => [EmptyString]
  | String c rest =>
      if Ascii.eqb c slash then EmptyString :: split_path rest
      else match split_path rest with
           | seg :: segs => String c seg :: segs
           | [] => [String c EmptyString]
           end
  end.

(** [normalizeString]: drops empty and [.] segments and resolves [..]
    against the segments kept so far; [stack] holds them innermost first. *)
Fixpoint norm_segs (allow_above : bool) (stack segs : list string)
  : list string :=
  match segs with
  | [] => rev stack
  | seg :: rest =>
      if String.eqb seg "" || String.eqb seg "." then
        norm_segs allow_above stack rest
      else if String.eqb seg ".." then
        match stack with
        | top :: below =>
            if String.eqb top ".." then norm_segs allow_above (seg :: stack) rest
            else norm_segs allow_above below rest
        | [] =>
            if allow_above then norm_segs allow_above [seg] rest
            else norm_segs allow_above [] rest
        end
      else norm_segs allow_above (seg :: stack) rest
  end.

Definition is_absolute (s : string) : bool :=
  match s with String c _ => Ascii.eqb c slash | EmptyString => false end.

Fixpoint ends_with_slash (s : string) : bool :=
  match s with
  | EmptyString => false
  | String c EmptyString => Ascii.eqb c slash
  | String _ rest => ends_with_slash rest
  end.

(** [path.normalize] *)
Definition path_normalize (p : string) : string :=
  if String.eqb p "" then "."
  else
    let body := join_with "/" (norm_segs (negb (is_absolute p)) [] (split_path p)) in
    if String.eqb body "" then
      if is_absolute p then "/"
      else if ends_with_slash p then "./" else "."
    else
      (if is_absolute p then "/" else "") +:+ body
      +:+ (if ends_with_slash p then "/" else "").

(** [path.join(a, b)]: empty arguments are skipped. *)
Definition path_join (a b : string) : string :=
  if String.eqb a "" then
    if String.eqb b "" then "." else path_normalize b
  else if String.eqb b "" then path_normalize a
  else path_normalize (a +:+ "/" +:+ b).

Fixpoint drop_while {A} (f : A -> bool) (l : list A) : list A :=
  match l with
  | [] => []
  | x :: rest => if f x then drop_while f rest else l
  end.

(** [path.dirname]: the scan runs from the last character down to index 1;
    trailing slashes are skipped, then the last segment, and the path is cut
    at the slash found there. *)
Definition path_dirname (p : string) : string :=
  match list_ascii_of_string p with
  | [] => "."
  | c0 :: rest =>
      let has_root := Ascii.eqb c0 slash in
      let no_trailing := drop_while (fun c => Ascii.eqb c slash) (rev rest) in
      match drop_while (fun c => negb (Ascii.eqb c slash)) no_trailing with
      | [] => if has_root then "/" else "."
      | _ :: before =>
          match before with
          | [] => if has_root then "//" else string_of_list_ascii [c0]
          | _ => string_of_list_ascii (c0 :: rev before)
          end
      end
  end.

(** ** Errors *)

Inductive errno :=
  ENOENT | EEXIST | ENOTDIR | EISDIR | ENOTEMPTY | EACCES | EBUSY | ENOSPC.

(** A thrown value: a plain [Error], a [TypeError] of an argument check, or
    a system error of a file operation. *)
Inductive error :=
| Error (message : string)
| TypeError (message : string)
| SystemError (code : errno) (syscall : string) (path : string).

Definition errno_name (c : errno) : string :=
  match c with
  | ENOENT => "ENOENT" | EEXIST => "EEXIST" | ENOTDIR => "ENOTDIR"
  | EISDIR => "EISDIR" | ENOTEMPTY => "ENOTEMPTY" | EACCES => "EACCES"
  | EBUSY => "EBUSY" | ENOSPC => "ENOSPC"
  end.

(** [err.message] *)
Definition error_message (e : error) : string :=
  match e with
  | Error m | TypeError m => m
  | SystemError c call p => errno_name c +:+ ": " +:+ call +:+ " '" +:+ p +:+ "'"
  end.

(** ** The file tree *)

(** What [sharp(...).metadata()] reads from a decodable image. *)
Record image := { img_width : Z; img_height : Z; img_format : string }.

(** A regular file: its byte size and, when it decodes as an image, the
    image header. *)
Record fdata := { f_image : option image; f_size : Z }.

Inductive node := File (d : fdata) | Dir.

(** Entries are keyed by their resolved absolute path, one string per
    segment; the root is the empty list and is always a directory. *)
Abbreviation tree := (gmap (list string) node).

Definition lookup_node (t : tree) (k : list string) : option node :=
  match k with
  | [] => Some Dir
  | _ => t !! k
  end.

(** The names of the entries directly inside directory [d]. *)
Definition child_name (d k : list string) : option string :=
  match k with
  | [] => None
  | _ => if decide (removelast k = d) then last k else None
  end.

Definition dir_entries (t : tree) (d : list string) : list string :=
  omap (fun kv => child_name d kv.1) (map_to_list t).

(** [[a]; [a; b]; [a; b; c]] for [[a; b; c]] *)
Fixpoint prefixes (k : list string) : list (list string) :=
  match k with
  | [] => []
  | x :: rest => [x] :: map (cons x) (prefixes rest)
  end.

Definition is_file (t : tree) (k : list string) : bool :=
  match lookup_node t k with Some (File _) => true | _ => false end.

(** ** The state of a run

    [nodes] is the file tree, [ops] the file and image operations issued so
    far, oldest first, and [console] what was printed. *)

Inductive fs_op :=
| OpExists (p : jsval)
| OpMkdir (p : jsval) (recursive : bool)
| OpUnlink (p : jsval)
| OpReaddir (p : string)
| OpRmdir (p : string)
| OpStat (p : string)
| OpMetadata (input : jsval)
| OpToFile (input : jsval) (output : string) (w h q : Z).

Inductive log_entry :=
| LogInfo (text : string)
| LogError (text : string) (detail : string).

Record world := { nodes : tree; ops : list fs_op; console : list log_entry }.

Definition with_nodes (t : tree) (w : world) : world :=
  {| nodes := t; ops := ops w; console := console w |}.

Definition record_op (o : fs_op) (w : world) : world :=
  {| nodes := nodes w; ops := ops w ++ [o]; console := console w |}.

Definition print (e : log_entry) (w : world) : world :=
  {| nodes := nodes w; ops := ops w; console := console w ++ [e] |}.

(** ** Computations: state plus exceptions

    An [async] function whose every promise is awaited on the spot runs its
    statements in order; a call is therefore one state transformer that
    either returns or throws, and the state survives a throw. *)

Inductive outcome (A : Type) :=
| Ok (a : A)
| Throw (e : error).
Arguments Ok {A} a.
Arguments Throw {A} e.

Definition M (A : Type) : Type := world -> outcome A * world.

Definition ret {A} (a : A) : M A := fun w => (Ok a, w).

Definition throw {A} (e : error) : M A := fun w => (Throw e, w).

Definition bind {A B} (m : M A) (k : A -> M B) : M B :=
  fun w => match m w with
           | (Ok a, w1) => k a w1
           | (Throw e, w1) => (Throw e, w1)
           end.

(** [try { m } catch (e) { h e }] *)
Definition try_catch {A} (m : M A) (h : error -> M A) : M A :=
  fun w => match m w with
           | (Ok a, w1) => (Ok a, w1)
           | (Throw e, w1) => h e w1
           end.

Notation "'let*' x ':=' m 'in' k" := (bind m (fun x => k))
  (at level 10, x pattern, m at level 100, k at level 200).
Notation "m ';;' k" := (bind m (fun _ => k))
  (at level 100, k at level 200, right associativity).

Definition console_log (text : string) : M unit :=
  fun w => (Ok tt, print (LogInfo text) w).

Definition console_error (text detail : string) : M unit :=
  fun w => (Ok tt, print (LogError text detail) w).

(** [if (c) m] *)
Definition when (c : bool) (m : M unit) : M unit := if c then m else ret tt.

(** ** The host: [fs], [sharp], [process]

    [cwd] is the working directory relative paths resolve against,
    [env_UPLOAD_DIR] is [process.env.UPLOAD_DIR], [webp_encode] is what the
    image library writes for an image resized to the given box at the given
    quality, and [fault] is the environment's say on every operation: given
    the state and the operation about to run it may make it fail with an
    error of its choice (permissions, a full disk, a corrupt image).  An
    operation the oracle lets through behaves as the file tree dictates; one
    it makes fail leaves the tree alone, except that a failing image write
    may leave behind, at its output, the partial file [torn_write] says. *)

Record host := {
  cwd : list string;
  env_UPLOAD_DIR : option string;
  webp_encode : image -> Z -> Z -> Z -> fdata;
  fault : world -> fs_op -> option error;
  torn_write : world -> fs_op -> option fdata;
}.

Section FileUtils.

Variable sys : host.

(** [TEMP_PHOTOS_DIR] of [FILE_STORAGE_CONFIG] (server/config.js). *)
Variable TEMP_PHOTOS_DIR : string.

(** The entry a path names; the empty path names nothing. *)
Definition resolve (s : string) : option (list string) :=
  if String.eqb s "" then None
  else Some (norm_segs false []
               ((if is_absolute s then [] else cwd sys) ++ split_path s)).

Definition syscall {A} (o : fs_op) (run : tree -> outcome A * tree) : M A :=
  fun w =>
    match fault sys w o with
    | Some e => (Throw e, record_op o w)
    | None => let '(r, t) := run (nodes w) in (r, with_nodes t (record_op o w))
    end.

(** *** [fs.existsSync]: never throws; [false] for anything but a path
    that names an entry (file or directory). *)
Definition path_exists (t : tree) (p : jsval) : bool :=
  match p with
  | VStr s =>
      match resolve s with
      | Some k => match lookup_node t k with Some _ => true | None => false end
      | None => false
      end
  | _ => false
  end.

Definition existsSync (p : jsval) : M bool :=
  fun w => (Ok (path_exists (nodes w) p), record_op (OpExists p) w).

(** *** [fs.mkdirSync(p, { recursive })] *)
Definition mkdir_run (recursive : bool) (p : jsval) (t : tree)
  : outcome unit * tree :=
  match p with
  | VStr s =>
      match resolve s with
      | None => (Throw (SystemError ENOENT "mkdir" s), t)
      | Some k =>
          if recursive then
            if existsb (is_file t) (prefixes k) then
              (Throw (SystemError (if is_file t k then EEXIST else ENOTDIR)
                        "mkdir" s), t)
            else (Ok tt, foldr (fun d acc => <[d := Dir]> acc) t (prefixes k))
          else
            match lookup_node t k with
            | Some _ => (Throw (SystemError EEXIST "mkdir" s), t)
            | None =>
                match lookup_node t (removelast k) with
                | Some Dir => (Ok tt, <[k := Dir]> t)
                | Some (File _) => (Throw (SystemError ENOTDIR "mkdir" s), t)
                | None => (Throw (SystemError ENOENT "mkdir" s), t)
                end
            end
      end
  | _ => (Throw (TypeError "The path argument must be of type string"), t)
  end.

Definition mkdirSync (p : jsval) (recursive : bool) : M unit :=
  syscall (OpMkdir p recursive) (mkdir_run recursive p).

(** *** [fs.unlinkSync] and [fs.promises.unlink] *)
Definition unlink_run (p : jsval) (t : tree) : outcome unit * tree :=
  match p with
  | VStr s =>
      match resolve s with
      | None => (Throw (SystemError ENOENT "unlink" s), t)
      | Some k =>
          match lookup_node t k with
          | None => (Throw (SystemError ENOENT "unlink" s), t)
          | Some Dir => (Throw (SystemError EISDIR "unlink" s), t)
          | Some (File _) => (Ok tt, delete k t)
          end
      end
  | _ => (Throw (TypeError "The path argument must be of type string"), t)
  end.

Definition unlink (p : jsval) : M unit :=
  syscall (OpUnlink p) (unlink_run p).

(** *** [fs.promises.readdir] *)
Definition readdir_run (s : string) (t : tree) : outcome (list string) * tree :=
  match resolve s with
  | None => (Throw (SystemError ENOENT "scandir" s), t)
  | Some k =>
      match lookup_node t k with
      | None => (Throw (SystemError ENOENT "scandir" s), t)
      | Some (File _) => (Throw (SystemError ENOTDIR "scandir" s), t)
      | Some Dir => (Ok (dir_entries t k), t)
      end
  end.

Definition readdir (s : string) : M (list string) :=
  syscall (OpReaddir s) (readdir_run s).

(** *** [fs.promises.rmdir]: only an empty directory can be removed. *)
Definition rmdir_run (s : string) (t : tree) : outcome unit * tree :=
  match resolve s with
  | None => (Throw (SystemError ENOENT "rmdir" s), t)
  | Some k =>
      match k, lookup_node t k with
      | [], _ => (Throw (SystemError EBUSY "rmdir" s), t)
      | _, None => (Throw (SystemError ENOENT "rmdir" s), t)
      | _, Some (File _) => (Throw (SystemError ENOTDIR "rmdir" s), t)
      | _, Some Dir =>
          match dir_entries t k with
          | [] => (Ok tt, delete k t)
          | _ => (Throw (SystemError ENOTEMPTY "rmdir" s), t)
          end
      end
  end.

Definition rmdir (s : string) : M unit :=
  syscall (OpRmdir s) (rmdir_run s).

(** *** [(await fs.promises.stat(p)).size]; a directory reports one block. *)
Definition node_size (n : node) : Z :=
  match n with File d => f_size d | Dir => 4096 end.

Definition stat_run (s : string) (t : tree) : outcome node * tree :=
  match resolve s with
  | None => (Throw (SystemError ENOENT "stat" s), t)
  | Some k =>
      match lookup_node t k with
      | None => (Throw (SystemError ENOENT "stat" s), t)
      | Some n => (Ok n, t)
      end
  end.

Definition stat (s : string) : M node :=
  syscall (OpStat s) (stat_run s).

(** *** [sharp(input)]: the input must name a file that decodes. *)
Definition sharp_open (input : jsval) (t : tree) : outcome image :=
  match input with
  | VStr s =>
      match resolve s with
      | Some k =>
          match lookup_node t k with
          | Some (File d) =>
              match f_image d with
              | Some im => Ok im
              | None => Throw (Error "Input file contains unsupported image format")
              end
          | _ => Throw (Error "Input file is missing")
          end
      | None => Throw (Error "Input file is missing")
      end
  | _ => Throw (Error "Input file is missing")
  end.

(** [sharp(input).metadata()] *)
Definition metadata_run (input : jsval) (t : tree) : outcome image * tree :=
  (sharp_open input t, t).

Definition sharp_metadata (input : jsval) : M image :=
  syscall (OpMetadata input) (metadata_run input).

(** [sharp(input).resize(w, h, {...}).webp({ quality }).toFile(output)]:
    the dimensions must be positive and the quality within 1..100, the
    output must not be the input, must not be a directory and its parent
    directory must exist; then the encoded file is written. *)
Definition tofile_run (input : jsval) (output : string) (w h q : Z) (t : tree)
  : outcome unit * tree :=
  if negb (0 <? w)%Z then
    (Throw (Error "Expected positive integer for width"), t)
  else if negb (0 <? h)%Z then
    (Throw (Error "Expected positive integer for height"), t)
  else if negb ((1 <=? q)%Z && (q <=? 100)%Z) then
    (Throw (Error "Expected integer between 1 and 100 for quality"), t)
  else
    match sharp_open input t with
    | Throw e => (Throw e, t)
    | Ok im =>
        match resolve output with
        | None => (Throw (Error "Missing output file path"), t)
        | Some k =>
            if decide (match input with VStr s => resolve s | _ => None end
                       = Some k) then
              (Throw (Error "Cannot use same file for input and output"), t)
            else
              match lookup_node t k with
              | Some Dir => (Throw (SystemError EISDIR "open" output), t)
              | _ =>
                  match lookup_node t (removelast k) with
                  | Some Dir => (Ok tt, <[k := File (webp_encode sys im w h q)]> t)
                  | Some (File _) => (Throw (SystemError ENOTDIR "open" output), t)
                  | None => (Throw (SystemError ENOENT "open" output), t)
                  end
              end
        end
    end.

(** What a write that fails half-way leaves: a partial file at the output,
    when the environment says so and a file can be created there. *)
Definition torn_output (o : fs_op) (output : string) (w : world) : tree :=
  match torn_write sys w o, resolve output with
  | Some d, Some k =>
      match lookup_node (nodes w) k, lookup_node (nodes w) (removelast k) with
      | Some Dir, _ => nodes w
      | _, Some Dir => <[k := File d]> (nodes w)
      | _, _ => nodes w
      end
  | _, _ => nodes w
  end.

Definition sharp_toFile (input : jsval) (output : string) (w h q : Z) : M unit :=
  fun w0 =>
    let o := OpToFile input output w h q in
    match fault sys w0 o with
    | Some e => (Throw e, with_nodes (torn_output o output w0) (record_op o w0))
    | None =>
        let '(r, t) := tofile_run input output w h q (nodes w0) in
        (r, with_nodes t (record_op o w0))
    end.

(** ** server/utils/fileUtils.js *)

(** *** [ensureDir] *)
Definition ensureDir (dirPath : jsval) : M jsval :=
  let* present := existsSync dirPath in
  (if negb present then mkdirSync dirPath true else ret tt) ;;
  ret dirPath.

(** *** [ensureDirectoriesExist] *)

Record dir_stats := { created : nat; existing : nat; failed : nat }.

(** The [options] argument; [None] is a property left [undefined]. *)
Record dir_options := { silent : option bool; recursive : option bool }.

(** One turn of the [for ... of] loop: the [try]/[catch] around a single
    directory, returning the counters as the turn leaves them. *)
Definition ensure_one (silent recursive : bool) (dir : jsval) (stats : dir_stats)
  : M dir_stats :=
  try_catch
    (let* present := existsSync dir in
     if negb present then
       mkdirSync dir recursive ;;
       when (negb silent)
         (console_log ("Created directory: " +:+ js_to_string dir)) ;;
       ret {| created := S (created stats); existing := existing stats;
              failed := failed stats |}
     else
       when (negb silent)
         (console_log ("Directory already exists: " +:+ js_to_string dir)) ;;
       ret {| created := created stats; existing := S (existing stats);
              failed := failed stats |})
    (fun error =>
       when (negb silent)
         (console_error ("Failed to create directory: " +:+ js_to_string dir)
            (error_message error)) ;;
       ret {| created := created stats; existing := existing stats;
              failed := S (failed stats) |}).

Fixpoint ensure_loop (silent recursive : bool) (directories : list jsval)
  (stats : dir_stats) : M dir_stats :=
  match directories with
  | [] => ret stats
  | dir :: rest =>
      let* stats1 := ensure_one silent recursive dir stats in
      ensure_loop silent recursive rest stats1
  end.

Definition ensureDirectoriesExist (directories : list jsval)
  (options : dir_options) : M dir_stats :=
  let silent := default false (silent options) in
  let recursive := default true (recursive options) in
  when (negb silent) (console_log "Ensuring required directories exist...") ;;
  let* stats :=
    ensure_loop silent recursive directories
      {| created := 0; existing := 0; failed := 0 |} in
  when (negb silent) (console_log "Directory check completed.") ;;
  ret stats.

(** *** [getUploadDir] *)
Definition getUploadDir (userId memoryId : jsval) : M jsval :=
  let baseUploadDir :=
    match env_UPLOAD_DIR sys with
    | Some s => if truthy (VStr s) then s else TEMP_PHOTOS_DIR
    | None => TEMP_PHOTOS_DIR
    end in
  let userDir := path_join baseUploadDir ("user_" +:+ js_to_string userId) in
  let memoryDir := path_join userDir ("memory_" +:+ js_to_string memoryId) in
  ensureDir (VStr memoryDir).

(** *** [processImage] *)

(** The [options] object; [VUndefined] and [None] stand for a property left
    out.  The sizes and the quality are integers when given. *)
Record process_options := {
  inputPath : jsval;
  targetDir : jsval;
  baseName : jsval;
  width : option Z;
  height : option Z;
  quality : option Z;
}.

Record image_metadata := {
  md_width : Z;
  md_height : Z;
  md_format : string;
  md_originalFormat : string;
  md_size : Z;
}.

Record process_result := { processedPath : string; metadata : image_metadata }.

(** The body of the outer [try]. *)
Definition processImage_try (originalPath : jsval) (optimizedPath : string)
  (width height quality : Z) : M process_result :=
  console_log ("[processImage] Attempting to get metadata for: "
               +:+ js_to_string originalPath) ;;
  let* fileMetadata :=
    try_catch
      (let* md := sharp_metadata originalPath in
       console_log "[processImage] Successfully retrieved metadata:" ;;
       ret md)
      (fun metadataError =>
         console_error ("[processImage] Error retrieving metadata for "
                        +:+ js_to_string originalPath +:+ ":")
           (error_message metadataError) ;;
         throw metadataError) in
  console_log ("[processImage] Attempting to resize and convert to WebP: "
               +:+ js_to_string originalPath) ;;
  sharp_toFile originalPath optimizedPath width height quality ;;
  console_log ("[processImage] Successfully processed and saved to: "
               +:+ optimizedPath) ;;
  let* present := existsSync originalPath in
  (if present then
     console_log ("[processImage] Deleting original temporary file: "
                  +:+ js_to_string originalPath) ;;
     unlink originalPath
   else ret tt) ;;
  let* st := stat optimizedPath in
  let newFileSize := node_size st in
  console_log ("[processImage] New file size: " +:+ pretty newFileSize
               +:+ " bytes") ;;
  ret {| processedPath := optimizedPath;
         metadata := {| md_width := img_width fileMetadata;
                        md_height := img_height fileMetadata;
                        md_format := "webp";
                        md_originalFormat := img_format fileMetadata;
                        md_size := newFileSize |} |}.

(** The outer [catch]. *)
Definition processImage_catch (originalPath : jsval) (optimizedPath : string)
  (error : error) : M process_result :=
  console_error ("[processImage] Error during image processing for "
                 +:+ js_to_string originalPath +:+ ":") (error_message error) ;;
  let* present := existsSync (VStr optimizedPath) in
  (if present then
     console_log ("[processImage] Cleaning up partially created file: "
                  +:+ optimizedPath) ;;
     unlink (VStr optimizedPath)
   else ret tt) ;;
  throw error.

(** [path.join(targetDir, name)] with its argument check. *)
Definition path_join_arg (a : jsval) (b : string) : M string :=
  match a with
  | VStr s => ret (path_join s b)
  | _ => throw (TypeError "The path argument must be of type string")
  end.

Definition processImage (options : process_options) : M process_result :=
  let originalPath := inputPath options in
  let targetDir := targetDir options in
  let baseName := baseName options in
  let width := default 2000%Z (width options) in
  let height := default 2000%Z (height options) in
  let quality := default 85%Z (quality options) in
  console_log "[processImage] Received parameters:" ;;
  if negb (truthy targetDir) || negb (truthy baseName) then
    console_error "[processImage] Error: targetDir and baseName are required." "" ;;
    throw (Error "targetDir and baseName are required for processImage")
  else
    ensureDir targetDir ;;
    let optimizedFileName := js_to_string baseName +:+ ".webp" in
    let* optimizedPath := path_join_arg targetDir optimizedFileName in
    console_log ("[processImage] Optimized path will be: " +:+ optimizedPath) ;;
    try_catch
      (processImage_try originalPath optimizedPath width height quality)
      (processImage_catch originalPath optimizedPath).

(** The statements of [processImage] ahead of its [try] block, on their own:
    the argument check, [ensureDir] and the computation of [optimizedPath],
    which is what they hand to the block. *)
Definition processImage_entry (options : process_options) : M string :=
  let targetDir := targetDir options in
  let baseName := baseName options in
  console_log "[processImage] Received parameters:" ;;
  if negb (truthy targetDir) || negb (truthy baseName) then
    console_error "[processImage] Error: targetDir and baseName are required." "" ;;
    throw (Error "targetDir and baseName are required for processImage")
  else
    ensureDir targetDir ;;
    let optimizedFileName := js_to_string baseName +:+ ".webp" in
    let* optimizedPath := path_join_arg targetDir optimizedFileName in
    console_log ("[processImage] Optimized path will be: " +:+ optimizedPath) ;;
    ret optimizedPath.

(** *** [deleteFiles] *)

(** One turn of the loop. *)
Definition deleteFiles_one (file : jsval) : M unit :=
  if truthy file && is_string file then
    try_catch
      (let* present := existsSync file in
       if present then unlink file else ret tt)
      (fun err =>
         console_error ("Error deleting file " +:+ js_to_string file +:+ ":")
           (error_message err))
  else ret tt.

Fixpoint deleteFiles_loop (files : list jsval) : M unit :=
  match files with
  | [] => ret tt
  | file :: rest => deleteFiles_one file ;; deleteFiles_loop rest
  end.

Definition deleteFiles (files : jsval) : M unit :=
  let files := match files with VArr l => l | _ => [files] end in
  deleteFiles_loop files.

(** *** [deleteFile] *)
Definition deleteFile (filePath : jsval) : M bool :=
  if truthy filePath && is_string filePath then
    try_catch
      (let* present := existsSync filePath in
       if present then unlink filePath ;; ret true
       else ret false)
      (fun err =>
         console_error ("Error deleting file " +:+ js_to_string filePath +:+ ":")
           (error_message err) ;;
         throw err)
  else ret false.

(** *** [deleteFileAndEmptyParent]

    Inside the guard [filePath] is a string, and [js_to_string] is that
    string. *)
Definition deleteFileAndEmptyParent (filePath : jsval) : M unit :=
  if truthy filePath && is_string filePath then
    try_catch
      (let* present := existsSync filePath in
       if present then
         try_catch
           (unlink filePath ;;
            console_log ("[deleteFileAndEmptyParent] File deleted successfully: "
                         +:+ js_to_string filePath))
           (fun fileError =>
              console_error ("[deleteFileAndEmptyParent] Failed to delete file: "
                             +:+ js_to_string filePath)
                (error_message fileError) ;;
              throw fileError) ;;
         let parentDir := path_dirname (js_to_string filePath) in
         console_log ("[deleteFileAndEmptyParent] Checking parent directory: "
                      +:+ parentDir) ;;
         let* remainingFiles :=
           try_catch
             (let* names := readdir parentDir in
              console_log
                ("[deleteFileAndEmptyParent] Directory contents before deletion: "
                 +:+ join_with "," names) ;;
              ret names)
             (fun readError =>
                console_error
                  ("[deleteFileAndEmptyParent] Failed to read directory contents: "
                   +:+ parentDir) (error_message readError) ;;
                throw readError) in
         console_log ("[deleteFileAndEmptyParent] Remaining files in directory: "
                      +:+ join_with "," remainingFiles) ;;
         if (List.length remainingFiles =? 0)%nat then
           try_catch
             (rmdir parentDir ;;
              console_log ("[deleteFileAndEmptyParent] Folder deleted successfully: "
                           +:+ parentDir))
             (fun folderError =>
                console_error ("[deleteFileAndEmptyParent] Failed to delete folder: "
                               +:+ parentDir) (error_message folderError) ;;
                throw folderError) ;;
           console_log ("[deleteFileAndEmptyParent] Removed empty directory: "
                        +:+ parentDir)
         else ret tt
       else ret tt)
      (fun err =>
         console_error ("Error deleting file or directory "
                        +:+ js_to_string filePath +:+ ":") (error_message err) ;;
         throw err)
  else ret tt.

End FileUtils.


(** ** [generateUniqueFilename]

    [path.extname] scans the path from its end: trailing slashes are
    skipped, the last component is read down to the slash before it, and the
    extension runs from the last dot of that component to its end.  There is
    none when the component has no dot, when its only dot is its first
    character, or when the component is [..]. *)

Definition dot : ascii := "."%char.

Fixpoint take_while {A} (f : A -> bool) (l : list A) : list A :=
  match l with
  | [] => []
  | x :: rest => if f x then x :: take_while f rest else []
  end.

(** The last component of the path, last character first. *)
Definition last_component (p : string) : list ascii :=
  take_while (fun c => negb (Ascii.eqb c slash))
    (drop_while (fun c => Ascii.eqb c slash) (rev (list_ascii_of_string p))).

Definition path_extname (p : string) : string :=
  let component := last_component p in
  let after_dot := take_while (fun c => negb (Ascii.eqb c dot)) component in
  match drop_while (fun c => negb (Ascii.eqb c dot)) component with
  | [] => ""
  | _ :: before =>
      match before, after_dot with
      | [], _ => ""
      | [c], [] => if Ascii.eqb c dot then "" else "."
      | _, _ => string_of_list_ascii (dot :: rev after_dot)
      end
  end.

(** Strings are byte strings here.  A name all of whose bytes are below
    128 is the same sequence of characters in JavaScript. *)
Definition is_ascii (s : string) : bool :=
  forallb (fun c => (nat_of_ascii c <? 128)%nat) (list_ascii_of_string s).

(** [String.prototype.toLowerCase] as it acts on such a name: the letters
    [A] to [Z] are lowered and every other byte is kept as it is. *)
Definition lower_char (c : ascii) : ascii :=
  let n := nat_of_ascii c in
  if (65 <=? n)%nat && (n <=? 90)%nat then ascii_of_nat (n + 32) else c.

Fixpoint toLowerCase (s : string) : string :=
  match s with
  | EmptyString => EmptyString
  | String c rest => String (lower_char c) (toLowerCase rest)
  end.

(** [uuid] is the identifier [uuidv4()] draws for this call; a name that is
    not a string is refused by [path.extname]. *)
Definition generateUniqueFilename (uuid : string) (originalName : jsval)
  : outcome string :=
  match originalName with
  | VStr name =>
      let ext := toLowerCase (path_extname name) in
      Ok (uuid +:+ ext)
  | _ => Throw (TypeError "The path argument must be of type string")
  end.
(** ** Sample hosts and states *)

Definition no_faults : world -> fs_op -> option error := fun _ _ => None.

Definition sample_encode (im : image) (w h q : Z) : fdata :=
  {| f_image := Some {| img_width := Z.min (img_width im) w;
                        img_height := Z.min (img_height im) h;
                        img_format := "webp" |};
     f_size := Z.min (img_width im) w * Z.min (img_height im) h * q / 400 |}.

Definition sample_host : host :=
  {| cwd := ["srv"]; env_UPLOAD_DIR := None;
     webp_encode := sample_encode; fault := no_faults;
     torn_write := fun _ _ => None |}.

(** The same host with [UPLOAD_DIR] set to the empty string. *)
Definition empty_env_host : host :=
  {| cwd := ["srv"]; env_UPLOAD_DIR := Some "";
     webp_encode := sample_encode; fault := no_faults;
     torn_write := fun _ _ => None |}.

(** A host whose disk fills up while an image is written: the write fails
    and leaves a truncated file. *)
Definition disk_full : world -> fs_op -> option error :=
  fun _ o =>
    match o with
    | OpToFile _ output _ _ _ => Some (SystemError ENOSPC "write" output)
    | _ => None
    end.

Definition full_disk_host : host :=
  {| cwd := ["srv"]; env_UPLOAD_DIR := None;
     webp_encode := sample_encode; fault := disk_full;
     torn_write := fun _ _ => Some {| f_image := None; f_size := 4096 |} |}.

(** The disk fills up as above, and the truncated output cannot be removed
    either: it is still held open. *)
Definition disk_full_output_busy : world -> fs_op -> option error :=
  fun _ o =>
    match o with
    | OpToFile _ output _ _ _ => Some (SystemError ENOSPC "write" output)
    | OpUnlink (VStr "/srv/out/a.webp") =>
        Some (SystemError EBUSY "unlink" "/srv/out/a.webp")
    | _ => None
    end.

Definition busy_output_host : host :=
  {| cwd := ["srv"]; env_UPLOAD_DIR := None;
     webp_encode := sample_encode; fault := disk_full_output_busy;
     torn_write := fun _ _ => Some {| f_image := None; f_size := 4096 |} |}.

Definition photo : node :=
  File {| f_image := Some {| img_width := 4000; img_height := 3000;
                             img_format := "jpeg" |};
          f_size := 5000000 |}.

(** A file that is not an image. *)
Definition text_file : node := File {| f_image := None; f_size := 12 |}.

Definition world_of (entries : list (list string * node)) : world :=
  {| nodes := list_to_map entries; ops := []; console := [] |}.

(** An upload waiting in [/srv/in], and an empty [/srv/out]. *)
Definition sample_world : world :=
  world_of [ (["srv"], Dir);
             (["srv"; "in"], Dir);
             (["srv"; "in"; "a.jpg"], photo);
             (["srv"; "out"], Dir) ].

(** An upload that does not decode, and an output left by an earlier run. *)
Definition stale_world : world :=
  world_of [ (["srv"], Dir);
             (["srv"; "in"], Dir);
             (["srv"; "in"; "a.jpg"], text_file);
             (["srv"; "out"], Dir);
             (["srv"; "out"; "a.webp"], photo) ].

(** A directory sits where the output is to be written. *)
Definition blocked_world : world :=
  world_of [ (["srv"], Dir);
             (["srv"; "in"], Dir);
             (["srv"; "in"; "a.jpg"], photo);
             (["srv"; "out"], Dir);
             (["srv"; "out"; "a.webp"], Dir) ].

(** A regular file sits where the upload directory of a memory belongs. *)
Definition occupied_world : world :=
  world_of [ (["srv"], Dir);
             (["srv"; "temp_photos"], Dir);
             (["srv"; "temp_photos"; "user_7"], Dir);
             (["srv"; "temp_photos"; "user_7"; "memory_3"], text_file) ].

Definition sample_options : process_options :=
  {| inputPath := VStr "/srv/in/a.jpg"; targetDir := VStr "/srv/out";
     baseName := VStr "a"; width := None; height := None; quality := None |}.

(** The same call without a [targetDir]. *)
Definition nameless_options : process_options :=
  {| inputPath := VStr "/srv/in/a.jpg"; targetDir := VUndefined;
     baseName := VStr "a"; width := None; height := None; quality := None |}.

Definition sample_result : process_result :=
  {| processedPath := "/srv/out/a.webp";
     metadata := {| md_width := 4000; md_height := 3000; md_format := "webp";
                    md_originalFormat := "jpeg"; md_size := 850000 |} |}.

Definition quiet : dir_options := {| silent := Some true; recursive := None |}.

Definition defaults : dir_options := {| silent := None; recursive := None |}.

(** The state a computation leaves. *)
Definition state_after {A} (m : M A) (w : world) : world := (m w).2.

(** A call whose output path is the file it reads. *)
Definition self_options : process_options :=
  {| inputPath := VStr "/srv/out/a.webp"; targetDir := VStr "/srv/out";
     baseName := VStr "a"; width := None; height := None; quality := None |}.

Definition photo_data : fdata :=
  {| f_image := Some {| img_width := 4000; img_height := 3000;
                        img_format := "jpeg" |};
     f_size := 5000000 |}.

(** The identifier a run of [uuidv4] returned. *)
Definition sample_uuid : string := "3f2a9c1e-7b44-4d0a-9c3e-5a1b2c3d4e5f".

(** ** Observations on a run *)

Definition is_error_entry (e : log_entry) : bool :=
  match e with LogError _ _ => true | LogInfo _ => false end.

Definition is_mkdir (o : fs_op) : bool :=
  match o with OpMkdir _ _ => true | _ => false end.

(** How many of the entries are [console.error] lines. *)
Definition count_errors (l : list log_entry) : nat :=
  List.length (List.filter is_error_entry l).

(** How many of the operations are [mkdir] calls. *)
Definition count_mkdir (l : list fs_op) : nat :=
  List.length (List.filter is_mkdir l).

(** ** Shapes of path segments *)

Fixpoint has_slash (s : string) : bool :=
  match s with
  | EmptyString => false
  | String c rest => Ascii.eqb c slash || has_slash rest
  end.

(** A segment that [normalizeString] keeps as a name. *)
Definition plain (seg : string) : Prop :=
  seg ≠ "" ∧ seg ≠ "." ∧ seg ≠ "..".

(** The stacks [normalizeString] works with, innermost segment first:
    names on top of a run of [..], the run being there only when the path
    may climb above its start. *)
Fixpoint normal_stack (allow_above : bool) (stack : list string) : Prop :=
  match stack with
  | [] => True
  | seg :: rest =>
      (plain seg ∧ normal_stack allow_above rest)
      ∨ (seg = ".." ∧ allow_above = true ∧ Forall (eq "..") rest)
  end.

(** ** Relations between file trees *)

(** [t'] has every entry of [t] unchanged, and what it has beyond them are
    directories. *)
Definition grows_by_dirs (t t' : tree) : Prop :=
  (∀ k n, t !! k = Some n → t' !! k = Some n)
  ∧ (∀ k n, t' !! k = Some n → t !! k = Some n ∨ n = Dir).

(** [t'] has no entry that [t] has not, unchanged. *)
Definition shrinks (t t' : tree) : Prop :=
  ∀ k n, t' !! k = Some n → t !! k = Some n.

(** The issued operations that remove a directory. *)
Definition is_rmdir (o : fs_op) : bool :=
  match o with OpRmdir _ => true | _ => false end.

(** The record [processImage] returns for an original that decodes as [im]
    and an output of [size] bytes written at [optimizedPath]. *)
Definition result_for (optimizedPath : string) (im : image) (size : Z)
  : process_result :=
  {| processedPath := optimizedPath;
     metadata := {| md_width := img_width im;
                    md_height := img_height im;
                    md_format := "webp";
                    md_originalFormat := img_format im;
                    md_size := size |} |}.

(** * Properties *)

(** ** Stepping through a call *)

Ltac unfold_monad H :=
  cbv [bind try_catch ret throw when console_log console_error existsSync
       path_join_arg] in H.


(** Case on the outcome of the next host operation whose result [H]
    inspects. *)
Ltac next_call H :=
  match type of H with
  | context [match ?c with _ => _ end] =>
      match type of c with
      | (outcome _ * world)%type =>
          lazymatch c with
          | context [match _ with _ => _ end] => fail
          | _ => destruct c as [[?a|?e] ?w] eqn:?Hcall
          end
      end
  end.

Ltac next_test H :=
  match type of H with
  | context [if ?c then _ else _] =>
      lazymatch c with
      | context [match _ with _ => _ end] => fail
      | _ => destruct c eqn:?Htest
      end
  end.

Ltac world_simpl := cbn [nodes ops console print record_op with_nodes] in *.

(** Rewrite the goal's trace along the equations collected for each step. *)
Ltac chain_ops :=
  repeat match goal with
         | H : ops ?w' = _ |- context [ops ?w'] => is_var w'; rewrite H; clear H
         end;
  rewrite <- ?app_assoc; try reflexivity.


(** ** The file tree *)

Lemma lookup_node_insert_same (t : tree) k n :
  k ≠ [] → lookup_node (<[k := n]> t) k = Some n.
Proof. intros Hk. destruct k; [done|]. cbn. apply lookup_insert_eq. Qed.

Lemma lookup_node_insert_mono (t : tree) k n k' :
  is_Some (lookup_node t k') → is_Some (lookup_node (<[k := n]> t) k').
Proof.
  destruct k' as [|x k']; cbn; [done|]. intros Hs.
  destruct (decide (k = x :: k')) as [->|Hne].
  - rewrite lookup_insert_eq. eauto.
  - by rewrite lookup_insert_ne.
Qed.

Lemma lookup_node_delete_same (t : tree) k :
  k ≠ [] → lookup_node (delete k t) k = None.
Proof. intros Hk. destruct k; [done|]. cbn. apply lookup_delete_eq. Qed.

Lemma lookup_node_file_nonroot (t : tree) k d :
  lookup_node t k = Some (File d) → k ≠ [].
Proof. by destruct k. Qed.

Lemma lookup_mkdirp (t : tree) (l : list (list string)) x :
  foldr (fun d acc => <[d := Dir]> acc) t l !! x
  = if decide (x ∈ l) then Some Dir else t !! x.
Proof.
  induction l as [|d l IH]; cbn.
  - case_decide as Hin; [by apply elem_of_nil in Hin | done].
  - destruct (decide (d = x)) as [->|Hne].
    + rewrite lookup_insert_eq. rewrite decide_True; [done | left].
    + rewrite lookup_insert_ne by done. rewrite IH.
      destruct (decide (x ∈ l)) as [Hin|Hin].
      * rewrite decide_True; [done | by right].
      * rewrite decide_False; [done |].
        intros [->|?]%elem_of_cons; done.
Qed.

Lemma prefixes_self k : k ≠ [] → k ∈ prefixes k.
Proof.
  induction k as [|x k IH]; [done|]. intros _. cbn.
  destruct k as [|y k]; [left|].
  right. apply list_elem_of_fmap. exists (y :: k). split; [done|]. by apply IH.
Qed.

Lemma lookup_node_mkdirp_self (t : tree) k :
  lookup_node (foldr (fun d acc => <[d := Dir]> acc) t (prefixes k)) k = Some Dir.
Proof.
  destruct k as [|x k]; [done|]. cbn [lookup_node].
  rewrite lookup_mkdirp, decide_True; [done|]. by apply prefixes_self.
Qed.

Lemma lookup_node_mkdirp_mono (t : tree) l k' :
  is_Some (lookup_node t k') →
  is_Some (lookup_node (foldr (fun d acc => <[d := Dir]> acc) t l) k').
Proof.
  intros Hs. induction l as [|d l IH]; cbn; [done|].
  by apply lookup_node_insert_mono.
Qed.

(** ** Paths *)

Lemma string_app_cons c (a b : string) : String c a +:+ b = String c (a +:+ b).
Proof. reflexivity. Qed.

Lemma string_app_assoc (a b c : string) : (a +:+ b) +:+ c = a +:+ (b +:+ c).
Proof.
  induction a as [|x a IH]; [done|]. rewrite !string_app_cons. by rewrite IH.
Qed.

Lemma string_app_empty_r (a : string) : a +:+ "" = a.
Proof.
  induction a as [|x a IH]; [done|]. rewrite string_app_cons. by rewrite IH.
Qed.

Lemma string_app_nonempty_r (a b : string) : b ≠ "" → a +:+ b ≠ "".
Proof. destruct a; [done|]. intros _. by rewrite string_app_cons. Qed.

Lemma split_path_nonempty s : split_path s ≠ [].
Proof.
  destruct s as [|c s]; cbn; [done|].
  destruct (Ascii.eqb c slash); [done|]. by destruct (split_path s).
Qed.

Lemma split_path_cons c s :
  split_path (String c s)
  = if Ascii.eqb c slash then "" :: split_path s
    else match split_path s with
         | seg :: segs => String c seg :: segs
         | [] => [String c ""]
         end.
Proof. reflexivity. Qed.

Lemma split_path_app a b :
  split_path (a +:+ "/" +:+ b) = split_path a ++ split_path b.
Proof.
  induction a as [|c a IH]; [done|].
  rewrite string_app_cons, !split_path_cons, IH.
  destruct (Ascii.eqb c slash); [done|].
  pose proof (split_path_nonempty a) as Hne.
  by destruct (split_path a).
Qed.

Lemma split_path_plain seg : has_slash seg = false → split_path seg = [seg].
Proof.
  induction seg as [|c seg IH]; [done|]. cbn.
  intros [Hc Hrest]%orb_false_elim. rewrite Hc, (IH Hrest). done.
Qed.

Lemma split_path_slash_free s :
  Forall (fun seg => has_slash seg = false) (split_path s).
Proof.
  induction s as [|c s IH]; cbn.
  - by repeat constructor.
  - destruct (Ascii.eqb c slash) eqn:Hc; [by constructor|].
    destruct (split_path s) as [|seg segs].
    { constructor; [|constructor]. cbn. by rewrite Hc. }
    apply Forall_cons in IH as [Hseg Hsegs].
    constructor; [|done]. cbn. by rewrite Hc, Hseg.
Qed.

Lemma split_join segs :
  segs ≠ [] → Forall (fun seg => has_slash seg = false) segs →
  split_path (join_with "/" segs) = segs.
Proof.
  induction segs as [|x segs IH]; [done|]. intros _ [Hx Hsegs]%Forall_cons.
  destruct segs as [|y segs].
  - cbn. by apply split_path_plain.
  - change (join_with "/" (x :: y :: segs))
      with (x +:+ "/" +:+ join_with "/" (y :: segs)).
    rewrite split_path_app, split_path_plain, IH; done.
Qed.

Lemma norm_segs_app allow stack xs ys :
  norm_segs allow stack (xs ++ ys)
  = norm_segs allow (rev (norm_segs allow stack xs)) ys.
Proof.
  revert stack. induction xs as [|x xs IH]; intros stack; cbn.
  - by rewrite rev_involutive.
  - repeat case_match; apply IH.
Qed.

Lemma norm_segs_elements (P : string → Prop) allow stack segs :
  Forall P stack → Forall P segs → Forall P (norm_segs allow stack segs).
Proof.
  revert stack. induction segs as [|x segs IH]; intros stack Hstack Hsegs; cbn.
  - by apply List.Forall_rev.
  - apply Forall_cons in Hsegs as [Hx Hsegs].
    repeat case_match; apply IH; try done; subst;
      try (apply Forall_cons in Hstack as [? ?]);
      repeat (apply Forall_cons; split); done.
Qed.

Lemma plain_tests seg :
  plain seg ↔ String.eqb seg "" || String.eqb seg "." = false
              ∧ String.eqb seg ".." = false.
Proof.
  unfold plain. rewrite orb_false_iff, !String.eqb_neq. tauto.
Qed.

Lemma dots_normal allow stack :
  allow = true → Forall (eq "..") stack → normal_stack allow stack.
Proof.
  intros Hallow. induction 1 as [|seg rest <- Hrest IH]; cbn; [done|].
  right. done.
Qed.

Lemma normal_stack_suffix allow above stack :
  normal_stack allow (above ++ stack) → normal_stack allow stack.
Proof.
  induction above as [|seg above IH]; [done|]. cbn.
  intros [[_ Hrest]|(_ & Hallow & Hdots)]; [by apply IH|].
  apply dots_normal; [done|]. by apply Forall_app in Hdots as [_ ?].
Qed.

Lemma normal_stack_nonempty allow stack :
  normal_stack allow stack → Forall (fun seg => seg ≠ "") stack.
Proof.
  induction stack as [|seg rest IH]; [constructor|]. cbn.
  intros [[(Hseg & _) Hrest]|(-> & Hallow & Hdots)].
  - constructor; [done|by apply IH].
  - constructor; [done|]. eapply Forall_impl; [exact Hdots|].
    by intros ? <-.
Qed.

(** Normalising keeps the stack in shape. *)
Lemma norm_segs_stack allow stack segs :
  normal_stack allow stack →
  ∃ stack', normal_stack allow stack'
            ∧ norm_segs allow stack segs = rev stack'.
Proof.
  revert stack. induction segs as [|seg segs IH]; intros stack Hstack.
  - by exists stack.
  - cbn [norm_segs].
    destruct (String.eqb seg "" || String.eqb seg ".") eqn:Hskip; [by apply IH|].
    destruct (String.eqb seg "..") eqn:Hup.
    + apply String.eqb_eq in Hup as ->.
      destruct stack as [|top below].
      * destruct allow eqn:Hallow; apply IH; [|done]. cbn. right. done.
      * destruct (String.eqb top "..") eqn:Htop.
        -- apply String.eqb_eq in Htop as ->. apply IH. cbn in Hstack.
           destruct Hstack as [[(_ & _ & Hne) _]|(_ & Hallow & Hdots)]; [done|].
           cbn. right. split_and!; [done..|]. by constructor.
        -- apply IH. cbn in Hstack.
           destruct Hstack as [[_ Hbelow]|(-> & _)]; [done|].
           by rewrite String.eqb_refl in Htop.
    + apply IH. cbn. left. split; [|done]. by apply plain_tests.
Qed.

(** A stack in shape is a fixed point of normalisation. *)
Lemma norm_segs_stable_from allow segs stack :
  normal_stack allow (rev segs ++ stack) →
  norm_segs allow stack segs = rev (rev segs ++ stack).
Proof.
  revert stack. induction segs as [|seg segs IH]; intros stack Hstack.
  - done.
  - cbn [rev] in *. rewrite <- app_assoc in *. cbn [app] in *.
    pose proof (normal_stack_suffix _ _ _ Hstack) as Hhere.
    cbn [norm_segs]. cbn in Hhere.
    destruct Hhere as [[Hplain _]|(-> & Hallow & Hdots)].
    + apply plain_tests in Hplain as [-> ->]. by apply IH.
    + subst allow. cbn.
      destruct stack as [|top below]; [by apply IH|].
      apply Forall_cons in Hdots as [<- _]. cbn. by apply IH.
Qed.

Lemma norm_segs_stable allow stack :
  normal_stack allow stack → norm_segs allow [] (rev stack) = rev stack.
Proof.
  intros Hstack.
  rewrite norm_segs_stable_from; rewrite rev_involutive, app_nil_r; done.
Qed.

Lemma join_with_empty segs :
  Forall (fun seg => seg ≠ "") segs → join_with "/" segs = "" → segs = [].
Proof.
  destruct segs as [|x [|y segs]]; [done| |]; intros [Hx _]%Forall_cons.
  - done.
  - intros Hjoin.
    by destruct (string_app_nonempty_r x ("/" +:+ join_with "/" (y :: segs))).
Qed.

Lemma string_app_empty_l (a : string) : "" +:+ a = a.
Proof. reflexivity. Qed.

Lemma split_path_root (a : string) :
  split_path ("/" +:+ a) = "" :: split_path a.
Proof. reflexivity. Qed.

Lemma norm_segs_skip_empty allow stack segs :
  norm_segs allow stack ("" :: segs) = norm_segs allow stack segs.
Proof. reflexivity. Qed.

Lemma is_absolute_app (a b : string) :
  a ≠ "" → is_absolute (a +:+ b) = is_absolute a.
Proof. by destruct a. Qed.

Lemma ends_with_slash_app (a b : string) :
  b ≠ "" → ends_with_slash (a +:+ b) = ends_with_slash b.
Proof.
  intros Hb. induction a as [|c a IH]; [done|].
  rewrite string_app_cons. cbn [ends_with_slash].
  destruct (a +:+ b) eqn:Hab; [|done].
  by destruct (string_app_nonempty_r a b).
Qed.

Lemma is_absolute_join seg segs suffix :
  seg ≠ "" → has_slash seg = false →
  is_absolute (join_with "/" (seg :: segs) +:+ suffix) = false.
Proof.
  intros Hne Hfree. destruct seg as [|c seg]; [done|].
  cbn in Hfree. apply orb_false_elim in Hfree as [Hc _].
  destruct segs; cbn [join_with]; rewrite !string_app_cons; exact Hc.
Qed.

(** The segments of a path, normalised: what [path.normalize] keeps of it
    besides the leading and the trailing slash. *)
Lemma path_normalize_segments p :
  p ≠ "" →
  norm_segs (negb (is_absolute p)) [] (split_path (path_normalize p))
  = norm_segs (negb (is_absolute p)) [] (split_path p)
  ∧ is_absolute (path_normalize p) = is_absolute p
  ∧ path_normalize p ≠ "".
Proof.
  intros Hp. unfold path_normalize.
  apply String.eqb_neq in Hp as ->.
  destruct (norm_segs_stack (negb (is_absolute p)) [] (split_path p) I)
    as (stack & Hstack & Hsegs).
  rewrite Hsegs.
  assert (Forall (fun seg => has_slash seg = false) (rev stack)) as Hfree.
  { rewrite <- Hsegs.
    apply norm_segs_elements; [constructor|apply split_path_slash_free]. }
  assert (Forall (fun seg => seg ≠ "") (rev stack)) as Hne.
  { apply List.Forall_rev. by eapply normal_stack_nonempty. }
  pose proof (norm_segs_stable _ _ Hstack) as Hstable.
  destruct (String.eqb (join_with "/" (rev stack)) "") eqn:Hbody.
  - apply String.eqb_eq, join_with_empty in Hbody; [|done]. rewrite Hbody.
    destruct (is_absolute p), (ends_with_slash p); done.
  - apply String.eqb_neq in Hbody.
    destruct (rev stack) as [|seg segs] eqn:Hrev; [done|].
    apply Forall_cons in Hne as [Hseg _].
    pose proof Hfree as [Hsegfree _]%Forall_cons.
    assert (split_path (join_with "/" (seg :: segs)) = seg :: segs) as Hsplit
      by (by apply split_join).
    assert (norm_segs (negb (is_absolute p)) []
              (split_path (join_with "/" (seg :: segs) +:+ "/"))
            = seg :: segs) as Hslash.
    { rewrite <- (string_app_empty_r (_ +:+ "/")), string_app_assoc.
      rewrite split_path_app, Hsplit, norm_segs_app, Hstable.
      cbn [norm_segs String.eqb orb].
      apply (rev_involutive (seg :: segs)). }
    set (body := join_with "/" (seg :: segs)) in *.
    destruct (is_absolute p) eqn:Habs, (ends_with_slash p); cbv iota.
    + split_and!; [|done|done].
      rewrite split_path_root, norm_segs_skip_empty. exact Hslash.
    + split_and!; [|done|done].
      rewrite split_path_root, norm_segs_skip_empty.
      by rewrite string_app_empty_r, Hsplit.
    + rewrite string_app_empty_l. split_and!.
      * exact Hslash.
      * by apply is_absolute_join.
      * by apply string_app_nonempty_r.
    + rewrite string_app_empty_l, string_app_empty_r. split_and!.
      * by rewrite Hsplit.
      * rewrite <- (string_app_empty_r body). by apply is_absolute_join.
      * done.
Qed.

(** Joining onto a normalised path is joining onto the path. *)
Lemma path_normalize_join p b :
  p ≠ "" → b ≠ "" →
  path_normalize (path_normalize p +:+ "/" +:+ b)
  = path_normalize (p +:+ "/" +:+ b).
Proof.
  intros Hp Hb.
  destruct (path_normalize_segments p Hp) as (Hsegs & Habs & Hne).
  assert ("/" +:+ b ≠ "") as Hsb by done.
  unfold path_normalize at 1 3.
  rewrite (proj2 (String.eqb_neq (path_normalize p +:+ "/" +:+ b) ""))
    by (by apply string_app_nonempty_r).
  rewrite (proj2 (String.eqb_neq (p +:+ "/" +:+ b) ""))
    by (by apply string_app_nonempty_r).
  rewrite !is_absolute_app, Habs by done.
  rewrite !(ends_with_slash_app _ ("/" +:+ b)) by done.
  rewrite !split_path_app, !(norm_segs_app _ [] _ (split_path b)), Hsegs.
  done.
Qed.

(** [path.join] of three pieces, one after the other or the last two as one
    subpath. *)
Lemma path_join_assoc base a b :
  a ≠ "" → b ≠ "" →
  path_join (path_join base a) b = path_join base (a +:+ "/" +:+ b).
Proof.
  intros Ha Hb.
  assert (a +:+ "/" +:+ b ≠ "") as Hab by (by apply string_app_nonempty_r).
  unfold path_join.
  rewrite (proj2 (String.eqb_neq a "")), (proj2 (String.eqb_neq b "")),
    (proj2 (String.eqb_neq (a +:+ "/" +:+ b) "")) by done.
  destruct (String.eqb base "") eqn:Hbase.
  - destruct (path_normalize_segments a Ha) as (_ & _ & Hne).
    rewrite (proj2 (String.eqb_neq _ "")) by done.
    by apply path_normalize_join.
  - apply String.eqb_neq in Hbase.
    assert (base +:+ "/" +:+ a ≠ "") as Hba by (by apply string_app_nonempty_r).
    destruct (path_normalize_segments _ Hba) as (_ & _ & Hne).
    rewrite (proj2 (String.eqb_neq _ "")) by done.
    rewrite path_normalize_join by done.
    by rewrite !string_app_assoc.
Qed.

(** ** Paths and the entries they name *)

Lemma norm_segs_plain allow stack segs :
  Forall plain segs → norm_segs allow stack segs = rev stack ++ segs.
Proof.
  revert stack. induction segs as [|seg segs IH]; intros stack Hsegs.
  - cbn. by rewrite app_nil_r.
  - apply Forall_cons in Hsegs as [Hseg Hsegs].
    apply plain_tests in Hseg as [Hskip Hup].
    cbn [norm_segs]. rewrite Hskip, Hup, IH by done.
    cbn [rev]. by rewrite <- app_assoc.
Qed.

Lemma norm_segs_nil allow stack : norm_segs allow stack [] = rev stack.
Proof. reflexivity. Qed.

Lemma norm_segs_skip allow stack seg segs :
  String.eqb seg "" || String.eqb seg "." = true →
  norm_segs allow stack (seg :: segs) = norm_segs allow stack segs.
Proof. intros Hskip. cbn [norm_segs]. by rewrite Hskip. Qed.

Lemma norm_segs_push allow stack seg segs :
  plain seg →
  norm_segs allow stack (seg :: segs) = norm_segs allow (seg :: stack) segs.
Proof.
  intros [Hskip Hup]%plain_tests. cbn [norm_segs]. by rewrite Hskip, Hup.
Qed.

Lemma norm_segs_up allow stack segs :
  norm_segs allow stack (".." :: segs)
  = match stack with
    | top :: below =>
        if String.eqb top ".." then norm_segs allow (".." :: stack) segs
        else norm_segs allow below segs
    | [] => if allow then norm_segs allow [".."] segs
            else norm_segs allow [] segs
    end.
Proof. reflexivity. Qed.

Lemma norm_segs_cons allow stack seg segs :
  norm_segs allow stack (seg :: segs)
  = norm_segs allow (rev (norm_segs allow stack [seg])) segs.
Proof. apply (norm_segs_app allow stack [seg] segs). Qed.

(** One segment, normalised on its own stack first and then replayed, or
    taken directly. *)
Lemma norm_segs_replay_one allow stack inner seg :
  normal_stack true inner →
  norm_segs allow stack (norm_segs true inner [seg])
  = norm_segs allow (rev (norm_segs allow stack (rev inner))) [seg].
Proof.
  intros Hinner.
  destruct (String.eqb seg "" || String.eqb seg ".") eqn:Hskip.
  { rewrite !(norm_segs_skip _ _ seg), !norm_segs_nil by done.
    by rewrite rev_involutive. }
  destruct (String.eqb seg "..") eqn:Hup.
  - apply String.eqb_eq in Hup as ->. rewrite (norm_segs_up true inner).
    destruct inner as [|top below].
    + rewrite !norm_segs_nil. cbn [rev app]. by rewrite rev_involutive.
    + destruct (String.eqb top "..") eqn:Htop.
      * rewrite norm_segs_nil.
        change (rev (".." :: top :: below)) with (rev (top :: below) ++ [".."]).
        apply norm_segs_app.
      * assert (plain top) as Hplain.
        { cbn in Hinner. destruct Hinner as [[? _]|(-> & _)]; [done|].
          by rewrite String.eqb_refl in Htop. }
        rewrite norm_segs_nil.
        change (rev (top :: below)) with (rev below ++ [top]).
        rewrite (norm_segs_app _ _ (rev below) [top]).
        rewrite (norm_segs_push _ _ top), norm_segs_nil by done.
        rewrite rev_involutive, norm_segs_up, Htop, norm_segs_nil.
        by rewrite rev_involutive.
  - assert (plain seg) as Hplain by (by apply plain_tests).
    rewrite (norm_segs_push true), norm_segs_nil by done.
    change (rev (seg :: inner)) with (rev inner ++ [seg]).
    apply norm_segs_app.
Qed.

Lemma norm_segs_replay_from allow stack inner segs :
  normal_stack true inner →
  norm_segs allow stack (norm_segs true inner segs)
  = norm_segs allow (rev (norm_segs allow stack (rev inner))) segs.
Proof.
  revert inner. induction segs as [|seg segs IH]; intros inner Hinner.
  - cbn. by rewrite rev_involutive.
  - rewrite (norm_segs_cons true), (norm_segs_cons allow _ seg).
    destruct (norm_segs_stack true inner [seg] Hinner) as (inner' & Hinner' & Hstep).
    rewrite Hstep, rev_involutive, IH by done.
    by rewrite <- Hstep, norm_segs_replay_one.
Qed.

Lemma norm_segs_replay allow stack segs :
  norm_segs allow stack (norm_segs true [] segs) = norm_segs allow stack segs.
Proof.
  rewrite norm_segs_replay_from by done. cbn. by rewrite rev_involutive.
Qed.

Lemma has_slash_app (a b : string) :
  has_slash (a +:+ b) = has_slash a || has_slash b.
Proof.
  induction a as [|c a IH]; [done|].
  rewrite string_app_cons. cbn [has_slash]. by rewrite IH, orb_assoc.
Qed.

Section Resolve.

Variable sys : host.

(** [path.normalize] does not change the entry a path names. *)
Lemma resolve_normalize p :
  p ≠ "" → resolve sys (path_normalize p) = resolve sys p.
Proof.
  intros Hp. destruct (path_normalize_segments p Hp) as (Hsegs & Habs & Hne).
  unfold resolve.
  rewrite (proj2 (String.eqb_neq (path_normalize p) "")),
    (proj2 (String.eqb_neq p "")), Habs by done.
  f_equal. rewrite !norm_segs_app.
  destruct (is_absolute p); cbn [negb] in Hsegs.
  - cbn [app norm_segs rev]. exact Hsegs.
  - rewrite <- (norm_segs_replay false _ (split_path (path_normalize p))).
    rewrite Hsegs. apply norm_segs_replay.
Qed.

Lemma resolve_join a b :
  a ≠ "" → b ≠ "" →
  resolve sys (path_join a b) = resolve sys (a +:+ "/" +:+ b).
Proof.
  intros Ha Hb. unfold path_join.
  rewrite (proj2 (String.eqb_neq a "")), (proj2 (String.eqb_neq b "")) by done.
  apply resolve_normalize. by apply string_app_nonempty_r.
Qed.

(** Joining plain names onto a directory names the entry that many levels
    below it. *)
Lemma resolve_join_below a ka b :
  resolve sys a = Some ka → b ≠ "" → Forall plain (split_path b) →
  resolve sys (path_join a b) = Some (ka ++ split_path b).
Proof.
  intros Ha Hb Hplain.
  assert (a ≠ "") as Hne by (intros ->; done).
  rewrite resolve_join by done.
  unfold resolve in *.
  rewrite (proj2 (String.eqb_neq a "")) in Ha by done.
  rewrite (proj2 (String.eqb_neq (a +:+ "/" +:+ b) ""))
    by (by apply string_app_nonempty_r).
  rewrite is_absolute_app by done. injection Ha as <-.
  f_equal. rewrite split_path_app, app_assoc, norm_segs_app.
  rewrite norm_segs_plain by done. by rewrite rev_involutive.
Qed.

End Resolve.

(** ** The host operations *)

Section Host.

Variable sys : host.

Lemma syscall_inv {A} (o : fs_op) (run : tree → outcome A * tree) (w : world) r w' :
  syscall sys o run w = (r, w') →
  ops w' = ops w ++ [o] ∧ console w' = console w ∧
  ((∃ e, fault sys w o = Some e ∧ r = Throw e ∧ nodes w' = nodes w)
   ∨ (fault sys w o = None ∧ run (nodes w) = (r, nodes w'))).
Proof.
  unfold syscall. destruct (fault sys w o) as [e|].
  - intros [= <- <-]. cbn. eauto 10.
  - destruct (run (nodes w)) as [r0 t] eqn:Hrun. intros [= <- <-]. cbn. eauto 10.
Qed.

Lemma existsSync_eq p w :
  existsSync sys p w = (Ok (path_exists sys (nodes w) p), record_op (OpExists p) w).
Proof. reflexivity. Qed.

(** A path that exists is a non-empty string that resolves to an entry. *)
Lemma path_exists_inv t p :
  path_exists sys t p = true →
  ∃ s k n, p = VStr s ∧ resolve sys s = Some k ∧ lookup_node t k = Some n.
Proof.
  destruct p as [| | | |s| |]; cbn; try done.
  destruct (resolve sys s) as [k|] eqn:Hr; [|done].
  destruct (lookup_node t k) as [n|] eqn:Hn; [|done]. intros _. eauto 10.
Qed.

Lemma path_exists_intro t s k n :
  resolve sys s = Some k → lookup_node t k = Some n →
  path_exists sys t (VStr s) = true.
Proof. intros Hr Hn. cbn. by rewrite Hr, Hn. Qed.

(** *** unlink *)

Lemma unlink_run_ok p t u t' :
  unlink_run sys p t = (Ok u, t') →
  ∃ s k d, p = VStr s ∧ resolve sys s = Some k
           ∧ lookup_node t k = Some (File d) ∧ t' = delete k t.
Proof.
  unfold unlink_run. destruct p as [| | | |s| |]; try done.
  destruct (resolve sys s) as [k|] eqn:Hr; [|done].
  destruct (lookup_node t k) as [[d|]|] eqn:Hn; try done.
  intros [= _ <-]. eauto 10.
Qed.

Lemma unlink_run_throw p t e t' :
  unlink_run sys p t = (Throw e, t') → t' = t.
Proof.
  unfold unlink_run. intros Hrun. repeat case_match; by simplify_eq.
Qed.

Lemma unlink_ok p w u w' :
  unlink sys p w = (Ok u, w') →
  ops w' = ops w ++ [OpUnlink p] ∧ console w' = console w ∧
  ∃ s k d, p = VStr s ∧ resolve sys s = Some k
           ∧ lookup_node (nodes w) k = Some (File d)
           ∧ nodes w' = delete k (nodes w).
Proof.
  intros (Ho & Hc & [(e & _ & [=] & _)|[_ Hrun]])%syscall_inv.
  split; [done|]. split; [done|]. by apply unlink_run_ok in Hrun.
Qed.

Lemma unlink_throw p w e w' :
  unlink sys p w = (Throw e, w') →
  ops w' = ops w ++ [OpUnlink p] ∧ console w' = console w ∧ nodes w' = nodes w.
Proof.
  intros (Ho & Hc & [(e' & _ & _ & Hn)|[_ Hrun]])%syscall_inv; [done|].
  by apply unlink_run_throw in Hrun.
Qed.

(** After a successful unlink the path names nothing. *)
Lemma unlink_ok_gone p w u w' :
  unlink sys p w = (Ok u, w') → path_exists sys (nodes w') p = false.
Proof.
  intros (_ & _ & s & k & d & -> & Hr & Hn & ->)%unlink_ok.
  cbn. rewrite Hr. rewrite lookup_node_delete_same; [done|].
  by eapply lookup_node_file_nonroot.
Qed.

(** *** mkdir *)

Lemma mkdir_run_throw rec p t e t' :
  mkdir_run sys rec p t = (Throw e, t') → t' = t.
Proof.
  unfold mkdir_run. intros Hrun. repeat case_match; by simplify_eq.
Qed.

Lemma mkdir_run_ok rec p t u t' :
  mkdir_run sys rec p t = (Ok u, t') →
  (∃ s k, p = VStr s ∧ resolve sys s = Some k ∧ lookup_node t' k = Some Dir)
  ∧ (∀ k', is_Some (lookup_node t k') → is_Some (lookup_node t' k')).
Proof.
  unfold mkdir_run. destruct p as [| | | |s| |]; try done.
  destruct (resolve sys s) as [k|] eqn:Hr; [|done].
  destruct rec.
  - destruct (existsb _ _); [done|]. intros [= _ <-]. split.
    + exists s, k. split_and!; [done..|]. apply lookup_node_mkdirp_self.
    + intros k'. apply lookup_node_mkdirp_mono.
  - destruct (lookup_node t k) eqn:Hk; [done|].
    destruct (lookup_node t (removelast k)) as [[d|]|]; try done.
    intros [= _ <-]. split.
    + exists s, k. split_and!; [done..|]. apply lookup_node_insert_same.
      intros ->. done.
    + intros k'. apply lookup_node_insert_mono.
Qed.

Lemma path_exists_mono t t' p :
  (∀ k', is_Some (lookup_node t k') → is_Some (lookup_node t' k')) →
  path_exists sys t p = true → path_exists sys t' p = true.
Proof.
  intros Hmono (s & k & n & -> & Hr & Hn)%path_exists_inv.
  destruct (Hmono k) as [n' Hn']; [by eauto|]. by eapply path_exists_intro.
Qed.

Lemma mkdirSync_ok p rec w u w' :
  mkdirSync sys p rec w = (Ok u, w') →
  ops w' = ops w ++ [OpMkdir p rec] ∧ console w' = console w ∧
  path_exists sys (nodes w') p = true ∧
  (∀ q, path_exists sys (nodes w) q = true → path_exists sys (nodes w') q = true).
Proof.
  intros (Ho & Hc & [(e & _ & [=] & _)|[_ Hrun]])%syscall_inv.
  apply mkdir_run_ok in Hrun as [(s & k & -> & Hr & Hn) Hmono].
  split_and!; [done..| |].
  - by eapply path_exists_intro.
  - intros q. by apply path_exists_mono.
Qed.

Lemma mkdirSync_throw p rec w e w' :
  mkdirSync sys p rec w = (Throw e, w') →
  ops w' = ops w ++ [OpMkdir p rec] ∧ console w' = console w ∧ nodes w' = nodes w.
Proof.
  intros (Ho & Hc & [(e' & _ & _ & Hn)|[_ Hrun]])%syscall_inv; [done|].
  by apply mkdir_run_throw in Hrun.
Qed.

(** *** readdir, rmdir, stat *)

Lemma readdir_ok s w names w' :
  readdir sys s w = (Ok names, w') →
  ops w' = ops w ++ [OpReaddir s] ∧ console w' = console w ∧
  nodes w' = nodes w ∧
  ∃ k, resolve sys s = Some k ∧ lookup_node (nodes w) k = Some Dir
       ∧ names = dir_entries (nodes w) k.
Proof.
  intros (Ho & Hc & [(e & _ & [=] & _)|[_ Hrun]])%syscall_inv.
  split; [done|]. split; [done|].
  unfold readdir_run in Hrun. repeat case_match; simplify_eq. eauto.
Qed.

Lemma readdir_throw s w e w' :
  readdir sys s w = (Throw e, w') →
  ops w' = ops w ++ [OpReaddir s] ∧ console w' = console w ∧ nodes w' = nodes w.
Proof.
  intros (Ho & Hc & [(e' & _ & _ & Hn)|[_ Hrun]])%syscall_inv; [done|].
  unfold readdir_run in Hrun. repeat case_match; by simplify_eq.
Qed.

Lemma rmdir_ok s w u w' :
  rmdir sys s w = (Ok u, w') →
  ops w' = ops w ++ [OpRmdir s] ∧ console w' = console w ∧
  ∃ k, resolve sys s = Some k ∧ k ≠ [] ∧ nodes w !! k = Some Dir
       ∧ dir_entries (nodes w) k = [] ∧ nodes w' = delete k (nodes w).
Proof.
  intros (Ho & Hc & [(e & _ & [=] & _)|[_ Hrun]])%syscall_inv.
  split; [done|]. split; [done|].
  unfold rmdir_run in Hrun. repeat case_match; simplify_eq.
  eexists. split_and!; done.
Qed.

Lemma rmdir_throw s w e w' :
  rmdir sys s w = (Throw e, w') →
  ops w' = ops w ++ [OpRmdir s] ∧ console w' = console w ∧ nodes w' = nodes w.
Proof.
  intros (Ho & Hc & [(e' & _ & _ & Hn)|[_ Hrun]])%syscall_inv; [done|].
  unfold rmdir_run in Hrun. repeat case_match; by simplify_eq.
Qed.

Lemma stat_inv s w r w' :
  stat sys s w = (r, w') →
  ops w' = ops w ++ [OpStat s] ∧ console w' = console w ∧ nodes w' = nodes w ∧
  ∀ n, r = Ok n → ∃ k, resolve sys s = Some k ∧ lookup_node (nodes w) k = Some n.
Proof.
  intros (Ho & Hc & [(e' & _ & -> & Hn)|[_ Hrun]])%syscall_inv; [done|].
  unfold stat_run in Hrun. repeat case_match; simplify_eq; split_and!; try done.
  intros ? [= <-]. eauto.
Qed.

(** *** sharp *)

Lemma sharp_metadata_inv input w r w' :
  sharp_metadata sys input w = (r, w') →
  ops w' = ops w ++ [OpMetadata input] ∧ console w' = console w
  ∧ nodes w' = nodes w.
Proof.
  intros (Ho & Hc & [(e' & _ & -> & Hn)|[_ Hrun]])%syscall_inv; [done|].
  unfold metadata_run in Hrun. by simplify_eq.
Qed.

Lemma sharp_toFile_ok input output wd ht q w u w' :
  sharp_toFile sys input output wd ht q w = (Ok u, w') →
  ops w' = ops w ++ [OpToFile input output wd ht q] ∧ console w' = console w ∧
  ∃ k im, resolve sys output = Some k ∧ k ≠ []
          ∧ (∀ s, input = VStr s → resolve sys s ≠ Some k)
          ∧ sharp_open sys input (nodes w) = Ok im
          ∧ nodes w' = <[k := File (webp_encode sys im wd ht q)]> (nodes w).
Proof.
  unfold sharp_toFile. cbn zeta.
  destruct (fault sys w _); [done|].
  destruct (tofile_run sys _ _ _ _ _ _) as [r t] eqn:Hrun.
  intros [= -> <-]. world_simpl. split; [done|]. split; [done|].
  unfold tofile_run in Hrun. repeat case_match; simplify_eq.
  all: eexists _, _; split_and!; try done.
  all: try (intros ->; cbn in *; simplify_eq).
  all: by intros ? [= ->].
Qed.

(** A failing write changes nothing but, possibly, the entry at its own
    output. *)
Lemma sharp_toFile_throw input output wd ht q w e w' :
  sharp_toFile sys input output wd ht q w = (Throw e, w') →
  ops w' = ops w ++ [OpToFile input output wd ht q] ∧ console w' = console w
  ∧ (nodes w' = nodes w
     ∨ ∃ k d, resolve sys output = Some k
              ∧ nodes w' = <[k := File d]> (nodes w)).
Proof.
  unfold sharp_toFile. cbn zeta.
  destruct (fault sys w _) as [e'|].
  - intros [= -> <-]. world_simpl. split; [done|]. split; [done|].
    unfold torn_output. repeat case_match; eauto.
  - destruct (tofile_run sys _ _ _ _ _ _) as [r t] eqn:Hrun.
    intros [= -> <-]. world_simpl. split; [done|]. split; [done|]. left.
    unfold tofile_run in Hrun. repeat case_match; by simplify_eq.
Qed.

End Host.

(** ** ensureDir *)

Section EnsureDir.

Variable sys : host.

Lemma ensureDir_inv p w r w' :
  ensureDir sys p w = (r, w') →
  console w' = console w ∧
  ((path_exists sys (nodes w) p = true ∧ r = Ok p ∧ nodes w' = nodes w
    ∧ ops w' = ops w ++ [OpExists p])
   ∨ (path_exists sys (nodes w) p = false
      ∧ ops w' = ops w ++ [OpExists p; OpMkdir p true]
      ∧ ((r = Ok p ∧ path_exists sys (nodes w') p = true
          ∧ ∀ q, path_exists sys (nodes w) q = true →
                 path_exists sys (nodes w') q = true)
         ∨ (∃ e, r = Throw e ∧ nodes w' = nodes w)))).
Proof.
  unfold ensureDir. intros Hrun. unfold_monad Hrun.
  destruct (path_exists sys (nodes w) p) eqn:Hex; cbn [negb] in Hrun.
  - simplify_eq. world_simpl. split; [done|]. left. done.
  - next_call Hrun; simplify_eq.
    + apply mkdirSync_ok in Hcall as (Ho & Hc & Hnew & Hmono). world_simpl.
      split; [done|]. right. split_and!; [done| by chain_ops |]. left. done.
    + apply mkdirSync_throw in Hcall as (Ho & Hc & Hn). world_simpl.
      split; [done|]. right. split_and!; [done| by chain_ops |]. right. eauto.
Qed.

End EnsureDir.

(** ** processImage *)

Section ProcessImage.

Variable sys : host.

Lemma processImage_unfold options w :
  processImage sys options w
  = bind (processImage_entry sys options)
      (fun optimizedPath =>
         try_catch
           (processImage_try sys (inputPath options) optimizedPath
              (default 2000%Z (width options)) (default 2000%Z (height options))
              (default 85%Z (quality options)))
           (processImage_catch sys (inputPath options) optimizedPath)) w.
Proof.
  unfold processImage, processImage_entry.
  cbv [bind try_catch ret throw console_log console_error path_join_arg].
  destruct (negb (truthy (targetDir options)) || negb (truthy (baseName options)));
    [done|].
  destruct (ensureDir sys _ _) as [[v|e] w1]; [|done].
  by destruct (targetDir options).
Qed.

Lemma processImage_entry_ok options w optimizedPath w1 :
  processImage_entry sys options w = (Ok optimizedPath, w1) →
  truthy (targetDir options) = true ∧ truthy (baseName options) = true ∧
  (∃ dir, targetDir options = VStr dir
          ∧ optimizedPath
            = path_join dir (js_to_string (baseName options) +:+ ".webp")) ∧
  path_exists sys (nodes w1) (targetDir options) = true ∧
  (ops w1 = ops w ++ [OpExists (targetDir options)]
   ∨ ops w1 = ops w ++ [OpExists (targetDir options);
                        OpMkdir (targetDir options) true]).
Proof.
  unfold processImage_entry. intros Hrun. unfold_monad Hrun.
  destruct (truthy (targetDir options)); [|done].
  destruct (truthy (baseName options)); [|done]. cbn [negb orb] in Hrun.
  next_call Hrun; [|done].
  apply ensureDir_inv in Hcall as [_ Hcases]. world_simpl.
  destruct (targetDir options) as [| | | |dir| |] eqn:Hdir; simplify_eq.
  world_simpl. split_and!; [done..|eauto| |].
  - destruct Hcases as [(? & _ & -> & _)|(_ & _ & [(_ & ? & _)|(? & [=] & _)])];
      done.
  - destruct Hcases as [(_ & _ & _ & ?)|(_ & ? & _)]; eauto.
Qed.

Lemma processImage_catch_throws originalPath optimizedPath e w r w' :
  processImage_catch sys originalPath optimizedPath e w = (r, w') →
  ∃ e', r = Throw e'.
Proof.
  unfold processImage_catch. intros Hrun. unfold_monad Hrun.
  repeat (next_test Hrun || next_call Hrun); simplify_eq; eauto.
Qed.

Lemma processImage_try_removes_original originalPath optimizedPath wd ht q w r w' :
  processImage_try sys originalPath optimizedPath wd ht q w = (Ok r, w') →
  path_exists sys (nodes w') originalPath = false.
Proof.
  unfold processImage_try. intros Hrun. unfold_monad Hrun.
  repeat (next_call Hrun || next_test Hrun); simplify_eq; world_simpl.
  - apply stat_inv in Hcall2 as (_ & _ & -> & _).
    by apply unlink_ok_gone in Hcall1.
  - by apply stat_inv in Hcall1 as (_ & _ & -> & _).
Qed.

(** C1. A call of [processImage] that returns a result leaves no entry at
    [inputPath]: on the success path the source file has been deleted. *)
Theorem processImage_success_removes_original options w result w' :
  processImage sys options w = (Ok result, w') →
  path_exists sys (nodes w') (inputPath options) = false.
Proof.
  unfold processImage. intros Hrun. unfold_monad Hrun.
  destruct (negb (truthy (targetDir options)) || negb (truthy (baseName options)));
    [done|].
  destruct (ensureDir sys _ _) as [[v|e] w1]; [|done].
  destruct (targetDir options) as [| | | |dir| |]; try done.
  cbv beta iota in Hrun.
  destruct (processImage_try sys _ _ _ _ _ _) as [[r|e] w2] eqn:Htry.
  - simplify_eq. by eapply processImage_try_removes_original.
  - by apply processImage_catch_throws in Hrun as [e' [=]].
Qed.

(** C8. When [targetDir] or [baseName] is falsy the call throws the
    argument error before any file or image operation is issued, and the
    file tree is the one it started from. *)
Theorem processImage_requires_target_and_name options w :
  truthy (targetDir options) = false ∨ truthy (baseName options) = false →
  ∃ w',
    processImage sys options w
    = (Throw (Error "targetDir and baseName are required for processImage"), w')
    ∧ ops w' = ops w ∧ nodes w' = nodes w.
Proof.
  intros Hfalsy. unfold processImage.
  cbv [bind try_catch ret throw console_log console_error].
  assert (negb (truthy (targetDir options)) || negb (truthy (baseName options))
          = true) as ->.
  { destruct Hfalsy as [-> | ->]; [done | by rewrite orb_true_r]. }
  eexists. split; [reflexivity|]. done.
Qed.

(** What a returning run of the [try] block did, in order. *)
Lemma processImage_try_ok originalPath optimizedPath wd ht q w r w' :
  processImage_try sys originalPath optimizedPath wd ht q w = (Ok r, w') →
  processedPath r = optimizedPath ∧
  (∃ k d, resolve sys optimizedPath = Some k
          ∧ lookup_node (nodes w') k = Some (File d)
          ∧ md_size (metadata r) = f_size d) ∧
  (ops w' = ops w ++ [OpMetadata originalPath;
                      OpToFile originalPath optimizedPath wd ht q;
                      OpExists originalPath; OpStat optimizedPath]
   ∨ ops w' = ops w ++ [OpMetadata originalPath;
                        OpToFile originalPath optimizedPath wd ht q;
                        OpExists originalPath; OpUnlink originalPath;
                        OpStat optimizedPath]).
Proof.
  unfold processImage_try. intros Hrun. unfold_monad Hrun.
  repeat (next_call Hrun || next_test Hrun); simplify_eq; world_simpl.
  - apply sharp_metadata_inv in Hcall as (Ho0 & _ & Hn0).
    apply sharp_toFile_ok in Hcall0
      as (Ho1 & _ & k & im & Hk & Hknil & Hdiff & _ & Hn1).
    apply unlink_ok in Hcall1 as (Ho2 & _ & s & ks & ds & -> & Hks & Hfile & Hn2).
    apply stat_inv in Hcall2 as (Ho3 & _ & Hn3 & Hst).
    destruct (Hst _ eq_refl) as (k' & Hk' & Hlook). world_simpl.
    assert (k' = k) as -> by congruence.
    assert (lookup_node (nodes w2) k
            = Some (File (webp_encode sys im wd ht q))) as Hout.
    { rewrite Hn2, Hn1. destruct k as [|x k]; [done|]. cbn.
      rewrite lookup_delete_ne by (intros ->; by eapply Hdiff).
      apply lookup_insert_eq. }
    rewrite Hout in Hlook. simplify_eq. split; [done|]. split.
    + exists k, (webp_encode sys im wd ht q). by rewrite Hn3.
    + right. by chain_ops.
  - apply sharp_metadata_inv in Hcall as (Ho0 & _ & Hn0).
    apply sharp_toFile_ok in Hcall0
      as (Ho1 & _ & k & im & Hk & Hknil & Hdiff & _ & Hn1).
    apply stat_inv in Hcall1 as (Ho3 & _ & Hn3 & Hst).
    destruct (Hst _ eq_refl) as (k' & Hk' & Hlook). world_simpl.
    assert (k' = k) as -> by congruence.
    rewrite Hn1, lookup_node_insert_same in Hlook by done. simplify_eq.
    split; [done|]. split.
    + exists k, (webp_encode sys im wd ht q).
      by rewrite Hn3, Hn1, lookup_node_insert_same.
    + left. by chain_ops.
Qed.


(** What the [catch] block does with the error it receives. *)
Lemma processImage_catch_inv originalPath optimizedPath e0 w r w' :
  processImage_catch sys originalPath optimizedPath e0 w = (r, w') →
  (r = Throw e0 ∧ path_exists sys (nodes w') (VStr optimizedPath) = false)
  ∨ (∃ e wu, r = Throw e ∧ nodes wu = nodes w
             ∧ unlink sys (VStr optimizedPath) wu = (Throw e, w')
             ∧ nodes w' = nodes w
             ∧ path_exists sys (nodes w') (VStr optimizedPath) = true).
Proof.
  unfold processImage_catch. intros Hrun. unfold_monad Hrun.
  repeat (next_test Hrun || next_call Hrun); simplify_eq; world_simpl.
  - left. split; [done|]. by eapply unlink_ok_gone.
  - right. pose proof Hcall as (_ & _ & Hn)%unlink_throw. world_simpl.
    eexists _, _. split_and!; [done| |done|done|by rewrite Hn]. done.
  - left. done.
Qed.

(** C2 (amended). When the [try] block of [processImage] fails with an
    error (metadata read, resize and encode, deletion of the original, or
    size read), the call throws: it issues the deletion of the output at
    [optimizedPath] when an entry exists there, and either the output is gone
    and the error thrown is the one the block failed with, or that deletion
    itself failed, its error is the one thrown, and the output is still
    there. *)
Theorem processImage_failure_cleanup options w optimizedPath w1 e0 w2 :
  processImage_entry sys options w = (Ok optimizedPath, w1) →
  processImage_try sys (inputPath options) optimizedPath
    (default 2000%Z (width options)) (default 2000%Z (height options))
    (default 85%Z (quality options)) w1 = (Throw e0, w2) →
  ∃ e w',
    processImage sys options w = (Throw e, w') ∧
    ((e = e0 ∧ path_exists sys (nodes w') (VStr optimizedPath) = false)
     ∨ (∃ wu, nodes wu = nodes w2
              ∧ unlink sys (VStr optimizedPath) wu = (Throw e, w')
              ∧ nodes w' = nodes w2
              ∧ path_exists sys (nodes w') (VStr optimizedPath) = true)).
Proof.
  intros Hentry Htry. rewrite processImage_unfold.
  unfold bind at 1, try_catch. rewrite Hentry, Htry.
  destruct (processImage_catch sys _ _ _ _) as [r w'] eqn:Hcatch.
  apply processImage_catch_inv in Hcatch
    as [[-> Hgone]|(e & wu & -> & Hwu & Hun & Hn & Hstill)].
  - exists e0, w'. split; [done|]. by left.
  - exists e, w'. split; [done|]. right. by exists wu.
Qed.

End ProcessImage.

(** ** ensureDirectoriesExist *)

Lemma count_errors_app l1 l2 :
  count_errors (l1 ++ l2) = count_errors l1 + count_errors l2.
Proof. unfold count_errors. by rewrite List.filter_app, length_app. Qed.

Lemma count_mkdir_app l1 l2 :
  count_mkdir (l1 ++ l2) = count_mkdir l1 + count_mkdir l2.
Proof. unfold count_mkdir. by rewrite List.filter_app, length_app. Qed.

Section EnsureDirectories.

Variable sys : host.

(** One turn of the loop never throws, and does one of three things. *)
Lemma ensure_one_inv silent rec dir st w r w' :
  ensure_one sys silent rec dir st w = (r, w') →
  ∃ st', r = Ok st' ∧
    ((path_exists sys (nodes w) dir = true
      ∧ st' = {| created := created st; existing := S (existing st);
                 failed := failed st |}
      ∧ nodes w' = nodes w ∧ ops w' = ops w ++ [OpExists dir]
      ∧ console w' = console w
          ++ (if silent then []
              else [LogInfo ("Directory already exists: " +:+ js_to_string dir)]))
     ∨ (path_exists sys (nodes w) dir = false
        ∧ st' = {| created := S (created st); existing := existing st;
                   failed := failed st |}
        ∧ path_exists sys (nodes w') dir = true
        ∧ (∀ q, path_exists sys (nodes w) q = true →
                path_exists sys (nodes w') q = true)
        ∧ ops w' = ops w ++ [OpExists dir; OpMkdir dir rec]
        ∧ console w' = console w
            ++ (if silent then []
                else [LogInfo ("Created directory: " +:+ js_to_string dir)]))
     ∨ (path_exists sys (nodes w) dir = false
        ∧ st' = {| created := created st; existing := existing st;
                   failed := S (failed st) |}
        ∧ nodes w' = nodes w
        ∧ ops w' = ops w ++ [OpExists dir; OpMkdir dir rec]
        ∧ ∃ e, mkdirSync sys dir rec (record_op (OpExists dir) w)
               = (Throw e, with_nodes (nodes w)
                             (record_op (OpMkdir dir rec)
                                (record_op (OpExists dir) w)))
               ∧ console w' = console w
                   ++ (if silent then []
                       else [LogError ("Failed to create directory: "
                                       +:+ js_to_string dir)
                               (error_message e)]))).
Proof.
  unfold ensure_one. intros Hrun.
  destruct (path_exists sys (nodes w) dir) eqn:Hex.
  - destruct silent; unfold_monad Hrun; rewrite Hex in Hrun;
      cbv [negb] in Hrun; simplify_eq; world_simpl;
      (eexists; split; [done|]); left; rewrite ?app_nil_r; split_and!; done.
  - destruct (mkdirSync sys dir rec (record_op (OpExists dir) w))
      as [[u|e] w0] eqn:Hcall.
    + pose proof Hcall as (Ho & Hc & Hnew & Hmono)%mkdirSync_ok. world_simpl.
      destruct silent; unfold_monad Hrun; rewrite Hex in Hrun;
        cbv [negb] in Hrun; rewrite Hcall in Hrun; simplify_eq; world_simpl;
        (eexists; split; [done|]); right; left; rewrite ?app_nil_r, ?Hc;
        (split_and!; [done..|by chain_ops|done]).
    + pose proof Hcall as (Ho & Hc & Hn)%mkdirSync_throw. world_simpl.
      assert (w0 = with_nodes (nodes w)
                     (record_op (OpMkdir dir rec) (record_op (OpExists dir) w)))
        as Hw0.
      { destruct w0 as [n0 o0 c0]. unfold with_nodes, record_op. cbn in *.
        by subst. }
      rewrite <- Hw0.
      destruct silent; unfold_monad Hrun; rewrite Hex in Hrun;
        cbv [negb] in Hrun; rewrite Hcall in Hrun; simplify_eq; world_simpl;
        (eexists; split; [done|]); right; right; rewrite ?app_nil_r, ?Hc;
        (split_and!; [done..|by chain_ops|]); exists e; done.
Qed.

Ltac loop_step Hrun IH :=
  let r1 := fresh "r" in
  let w1 := fresh "w" in
  let st1 := fresh "st" in
  let Hone := fresh "Hone" in
  let Hcases := fresh "Hcases" in
  cbn [ensure_loop] in Hrun; unfold bind in Hrun;
  destruct (ensure_one sys _ _ _ _ _) as [r1 w1] eqn:Hone;
  apply ensure_one_inv in Hone as (st1 & -> & Hcases);
  apply IH in Hrun.

Lemma ensure_loop_total silent rec dirs st w :
  ∃ st' w', ensure_loop sys silent rec dirs st w = (Ok st', w').
Proof.
  revert st w. induction dirs as [|dir dirs IH]; intros st w; cbn.
  - by eexists _, _.
  - unfold bind. destruct (ensure_one sys _ _ _ _ _) as [r1 w1] eqn:Hone.
    apply ensure_one_inv in Hone as (st1 & -> & _). apply IH.
Qed.

Lemma ensure_loop_counts silent rec dirs st w st' w' :
  ensure_loop sys silent rec dirs st w = (Ok st', w') →
  (created st ≤ created st')%nat ∧ (existing st ≤ existing st')%nat ∧
  (failed st ≤ failed st')%nat ∧
  (created st' + existing st' + failed st'
   = created st + existing st + failed st + List.length dirs)%nat.
Proof.
  revert st w. induction dirs as [|dir dirs IH]; intros st w Hrun.
  - cbn in Hrun. unfold ret in Hrun. simplify_eq. cbn. lia.
  - loop_step Hrun IH.
    destruct Hcases as [(_ & -> & _)|[(_ & -> & _)|(_ & -> & _)]];
      cbn in *; lia.
Qed.

Lemma ensure_loop_console silent rec dirs st w st' w' :
  ensure_loop sys silent rec dirs st w = (Ok st', w') →
  ∃ printed, console w' = console w ++ printed
             ∧ (silent = true → printed = [])
             ∧ (silent = false → count_errors printed = failed st' - failed st).
Proof.
  revert st w. induction dirs as [|dir dirs IH]; intros st w Hrun.
  - cbn in Hrun. unfold ret in Hrun. simplify_eq. exists [].
    rewrite app_nil_r. split_and!; [done..|]. intros _. cbn. lia.
  - cbn [ensure_loop] in Hrun. unfold bind in Hrun.
    destruct (ensure_one sys _ _ _ _ _) as [r1 w1] eqn:Hone.
    apply ensure_one_inv in Hone as (st1 & -> & Hcases).
    pose proof (ensure_loop_counts _ _ _ _ _ _ _ Hrun) as (_ & _ & Hle & _).
    apply IH in Hrun as (printed & Hc & Hsil & Hcount).
    destruct Hcases as [(_ & -> & _ & _ & Hc0)|[(_ & -> & _ & _ & _ & Hc0)
                       |(_ & -> & _ & _ & e & _ & Hc0)]];
      rewrite Hc, Hc0, <- app_assoc; (eexists; split; [done|]);
      (destruct silent;
       [specialize (Hsil eq_refl); subst printed|specialize (Hcount eq_refl)]);
      (split; intros ?); try done;
      unfold count_errors in *; cbn in *; lia.
Qed.

Lemma ensure_loop_ops silent rec dirs st w st' w' :
  ensure_loop sys silent rec dirs st w = (Ok st', w') →
  ∃ issued, ops w' = ops w ++ issued
            ∧ count_mkdir issued
              = (created st' - created st) + (failed st' - failed st).
Proof.
  revert st w. induction dirs as [|dir dirs IH]; intros st w Hrun.
  - cbn in Hrun. unfold ret in Hrun. simplify_eq. exists [].
    rewrite app_nil_r. split; [done|]. cbn. lia.
  - cbn [ensure_loop] in Hrun. unfold bind in Hrun.
    destruct (ensure_one sys _ _ _ _ _) as [r1 w1] eqn:Hone.
    apply ensure_one_inv in Hone as (st1 & -> & Hcases).
    pose proof (ensure_loop_counts _ _ _ _ _ _ _ Hrun) as (Hc & _ & Hf & _).
    apply IH in Hrun as (issued & Ho & Hcount).
    destruct Hcases as [(_ & -> & _ & Ho0 & _)|[(_ & -> & _ & _ & Ho0 & _)
                       |(_ & -> & _ & Ho0 & _)]];
      rewrite Ho, Ho0, <- app_assoc; (eexists; split; [done|]);
      rewrite count_mkdir_app, Hcount; cbn in *; lia.
Qed.

(** Nothing the loop does removes an entry. *)
Lemma ensure_loop_mono silent rec dirs st w st' w' :
  ensure_loop sys silent rec dirs st w = (Ok st', w') →
  ∀ q, path_exists sys (nodes w) q = true → path_exists sys (nodes w') q = true.
Proof.
  revert st w. induction dirs as [|dir dirs IH]; intros st w Hrun.
  - cbn in Hrun. unfold ret in Hrun. by simplify_eq.
  - cbn [ensure_loop] in Hrun. unfold bind in Hrun.
    destruct (ensure_one sys _ _ _ _ _) as [r1 w1] eqn:Hone.
    apply ensure_one_inv in Hone as (st1 & -> & Hcases).
    intros q Hq. eapply IH; [exact Hrun|].
    destruct Hcases as [(_ & _ & Hn & _)|[(_ & _ & _ & Hmono & _)
                       |(_ & _ & Hn & _)]];
      [by rewrite Hn|by apply Hmono|by rewrite Hn].
Qed.

(** A run that counted no failure leaves every directory of the list in
    place. *)
Lemma ensure_loop_all_exist silent rec dirs st w st' w' :
  ensure_loop sys silent rec dirs st w = (Ok st', w') →
  failed st' = failed st →
  Forall (fun d => path_exists sys (nodes w') d = true) dirs.
Proof.
  revert st w. induction dirs as [|dir dirs IH]; intros st w Hrun Hfailed.
  - constructor.
  - cbn [ensure_loop] in Hrun. unfold bind in Hrun.
    destruct (ensure_one sys _ _ _ _ _) as [r1 w1] eqn:Hone.
    apply ensure_one_inv in Hone as (st1 & -> & Hcases).
    pose proof (ensure_loop_counts _ _ _ _ _ _ _ Hrun) as (_ & _ & Hf & _).
    pose proof (ensure_loop_mono _ _ _ _ _ _ _ Hrun) as Hmono.
    destruct Hcases as [(Hex & -> & Hn & _)|[(_ & -> & Hex & _)
                       |(_ & -> & _)]]; cbn in *.
    + constructor; [apply Hmono; by rewrite Hn | by eapply IH].
    + constructor; [by apply Hmono | by eapply IH].
    + lia.
Qed.

(** Over directories that all exist the loop only counts. *)
Lemma ensure_loop_existing silent rec dirs st w :
  Forall (fun d => path_exists sys (nodes w) d = true) dirs →
  ∃ w', ensure_loop sys silent rec dirs st w
        = (Ok {| created := created st;
                 existing := existing st + List.length dirs;
                 failed := failed st |}, w')
        ∧ nodes w' = nodes w
        ∧ ∃ issued, ops w' = ops w ++ issued ∧ count_mkdir issued = 0.
Proof.
  revert st w. induction dirs as [|dir dirs IH]; intros st w Hall.
  - exists w. cbn. unfold ret. rewrite Nat.add_0_r. destruct st.
    split_and!; [done..|]. exists []. by rewrite app_nil_r.
  - apply Forall_cons in Hall as [Hdir Hall].
    cbn [ensure_loop]. unfold bind.
    destruct (ensure_one sys _ _ _ _ _) as [r1 w1] eqn:Hone.
    apply ensure_one_inv in Hone as (st1 & -> & Hcases).
    destruct Hcases as [(_ & -> & Hn & Ho & _)|[(Hex & _)|(Hex & _)]];
      [|congruence..].
    rewrite <- Hn in Hall.
    destruct (IH {| created := created st; existing := S (existing st);
                    failed := failed st |} w1 Hall)
      as (w' & -> & Hn' & issued & Ho' & Hcount).
    exists w'. cbn. split_and!.
    + do 2 f_equal. f_equal. lia.
    + congruence.
    + exists (OpExists dir :: issued). rewrite Ho', Ho, <- app_assoc.
      split; [done|]. exact Hcount.
Qed.

Lemma ensureDirectoriesExist_unfold directories options w :
  ensureDirectoriesExist sys directories options w
  = let quiet := default false (silent options) in
    match ensure_loop sys quiet (default true (recursive options)) directories
            {| created := 0; existing := 0; failed := 0 |}
            (if quiet then w
             else print (LogInfo "Ensuring required directories exist...") w)
    with
    | (Ok stats, w1) =>
        (Ok stats,
         if quiet then w1
         else print (LogInfo "Directory check completed.") w1)
    | (Throw e, w1) => (Throw e, w1)
    end.
Proof.
  unfold ensureDirectoriesExist.
  cbv [bind ret when console_log]. cbn zeta.
  destruct (default false (silent options)); cbn [negb];
    by destruct (ensure_loop sys _ _ _ _ _) as [[st|e] w1].
Qed.

(** C3. Directory provisioning is idempotent. After a first call of
    [ensureDirectoriesExist] that counted no failure, a second call on the
    same list reports every directory as existing, none as created or
    failed, issues no [mkdir] and leaves the file tree as it was; and after
    a first call of [ensureDir] that returned, a second call on the same
    path returns it again having only tested for existence. *)
Theorem provisioning_idempotent :
  (∀ directories options w stats w1,
      ensureDirectoriesExist sys directories options w = (Ok stats, w1) →
      failed stats = 0 →
      ∃ w2 issued,
        ensureDirectoriesExist sys directories options w1
        = (Ok {| created := 0; existing := List.length directories;
                 failed := 0 |}, w2)
        ∧ nodes w2 = nodes w1
        ∧ ops w2 = ops w1 ++ issued ∧ count_mkdir issued = 0)
  ∧ (∀ dirPath w v w1,
        ensureDir sys dirPath w = (Ok v, w1) →
        ∃ w2, ensureDir sys dirPath w1 = (Ok dirPath, w2)
              ∧ nodes w2 = nodes w1
              ∧ ops w2 = ops w1 ++ [OpExists dirPath]).
Proof.
  split.
  - intros directories options w stats w1 Hfirst Hfailed.
    rewrite ensureDirectoriesExist_unfold in Hfirst. cbn zeta in Hfirst.
    destruct (ensure_loop sys _ _ _ _ _) as [[st|e] w0] eqn:Hloop; [|done].
    assert (st = stats ∧ nodes w1 = nodes w0) as [-> Hn].
    { destruct (default false (silent options)); by simplify_eq. }
    apply ensure_loop_all_exist in Hloop; [|done]. rewrite <- Hn in Hloop.
    rewrite ensureDirectoriesExist_unfold. cbn zeta.
    set (w1' := if default false (silent options) then w1 else _).
    assert (nodes w1' = nodes w1 ∧ ops w1' = ops w1) as [Hn1 Ho1].
    { unfold w1'. by destruct (default false (silent options)). }
    rewrite <- Hn1 in Hloop.
    destruct (ensure_loop_existing (default false (silent options))
                (default true (recursive options)) directories
                {| created := 0; existing := 0; failed := 0 |} w1' Hloop)
      as (w2 & -> & Hn2 & issued & Ho2 & Hcount).
    cbn [created existing failed Nat.add].
    eexists _, issued. split; [reflexivity|].
    destruct (default false (silent options)); world_simpl;
      split_and!; congruence.
  - intros dirPath w v w1 Hfirst.
    apply ensureDir_inv in Hfirst as [_ Hcases].
    assert (path_exists sys (nodes w1) dirPath = true) as Hex.
    { destruct Hcases as [(? & _ & -> & _)|(_ & _ & [(_ & ? & _)|(? & [=] & _)])];
        done. }
    exists (record_op (OpExists dirPath) w1).
    unfold ensureDir. cbv [bind ret existsSync]. rewrite Hex. done.
Qed.

End EnsureDirectories.

(** ** getUploadDir *)

Section GetUploadDir.

Variable sys : host.
Variable TEMP_PHOTOS_DIR : string.

Lemma ensureDir_creates_directory p w v w' :
  ensureDir sys p w = (Ok v, w') →
  path_exists sys (nodes w) p = false →
  ∃ s k, p = VStr s ∧ resolve sys s = Some k
         ∧ lookup_node (nodes w') k = Some Dir.
Proof.
  unfold ensureDir. intros Hrun Hex. unfold_monad Hrun. rewrite Hex in Hrun.
  cbn [negb] in Hrun. next_call Hrun; [|done]. simplify_eq.
  apply syscall_inv in Hcall as (_ & _ & [(e & _ & [=] & _)|[_ Hmk]]).
  by apply mkdir_run_ok in Hmk as [Hdir _].
Qed.

(** The two joins of [getUploadDir] amount to one join with the subpath
    [user_<userId>/memory_<memoryId>]. *)
Lemma getUploadDir_path base userId memoryId :
  path_join (path_join base ("user_" +:+ js_to_string userId))
    ("memory_" +:+ js_to_string memoryId)
  = path_join base
      ("user_" +:+ js_to_string userId +:+ "/memory_" +:+ js_to_string memoryId).
Proof.
  rewrite path_join_assoc; [|done..].
  by rewrite string_app_assoc.
Qed.

(** C7 (amended). [getUploadDir] works on the path obtained by joining
    [base] with the subpath [user_<userId>/memory_<memoryId>], where [base]
    is [UPLOAD_DIR] when that variable holds a non-empty string and the
    configured temporary-photos directory otherwise.  When it returns, it
    returns that path and an entry exists there: the entry that was already
    there, directory or not, or else the directory it has just created.  It
    throws instead, having changed nothing, when the path was free and the
    creation failed. *)
Theorem getUploadDir_layout userId memoryId w :
  let base :=
    match env_UPLOAD_DIR sys with
    | Some s => if String.eqb s "" then TEMP_PHOTOS_DIR else s
    | None => TEMP_PHOTOS_DIR
    end in
  let memoryDir :=
    path_join base
      ("user_" +:+ js_to_string userId +:+ "/memory_" +:+ js_to_string memoryId) in
  ∃ r w',
    getUploadDir sys TEMP_PHOTOS_DIR userId memoryId w = (r, w') ∧
    ((r = Ok (VStr memoryDir)
      ∧ path_exists sys (nodes w') (VStr memoryDir) = true
      ∧ (path_exists sys (nodes w) (VStr memoryDir) = true → nodes w' = nodes w)
      ∧ (path_exists sys (nodes w) (VStr memoryDir) = false →
         ∃ k, resolve sys memoryDir = Some k
              ∧ lookup_node (nodes w') k = Some Dir))
     ∨ (∃ e, r = Throw e
             ∧ path_exists sys (nodes w) (VStr memoryDir) = false
             ∧ nodes w' = nodes w)).
Proof.
  intros base memoryDir.
  assert (getUploadDir sys TEMP_PHOTOS_DIR userId memoryId w
          = ensureDir sys (VStr memoryDir) w) as ->.
  { unfold getUploadDir, memoryDir, base. cbn [truthy].
    rewrite getUploadDir_path.
    destruct (env_UPLOAD_DIR sys) as [s|]; [|done].
    by destruct (String.eqb s ""). }
  destruct (ensureDir sys (VStr memoryDir) w) as [r w'] eqn:Hrun.
  exists r, w'. split; [done|].
  pose proof Hrun as [_ Hcases]%ensureDir_inv.
  destruct Hcases as [(Hex & -> & Hn & _)|(Hex & _ & [(-> & Hnew & _)|(e & -> & Hn)])].
  - left. split_and!; [done|by rewrite Hn|done|congruence].
  - left. split_and!; [done|done|congruence|]. intros _.
    destruct (ensureDir_creates_directory _ _ _ _ Hrun Hex)
      as (s & k & [= <-] & Hk & Hdir). eauto.
  - right. eauto.
Qed.

End GetUploadDir.

(** ** deleteFiles, deleteFile, deleteFileAndEmptyParent *)

Section Delete.

Variable sys : host.

(** The guard [v && typeof v === "string"] singles out non-empty strings. *)
Lemma string_guard v :
  truthy v && is_string v = true ↔ ∃ s, v = VStr s ∧ s ≠ "".
Proof.
  split.
  - destruct v as [| | | |s| |]; cbn; rewrite ?andb_false_r; try done.
    rewrite andb_true_r. intros Hne. exists s. split; [done|].
    intros ->. done.
  - intros (s & -> & Hne). cbn. rewrite andb_true_r.
    apply negb_true_iff, String.eqb_neq. done.
Qed.

(** *** deleteFile *)



(** *** deleteFiles *)

(** One turn of the loop always completes. *)
Lemma deleteFiles_one_inv file w r w' :
  deleteFiles_one sys file w = (r, w') →
  r = Ok tt ∧
  ((truthy file && is_string file = false ∧ w' = w)
   ∨ (truthy file && is_string file = true
      ∧ path_exists sys (nodes w) file = false
      ∧ w' = record_op (OpExists file) w)
   ∨ (truthy file && is_string file = true
      ∧ path_exists sys (nodes w) file = true
      ∧ (unlink sys file (record_op (OpExists file) w) = (Ok tt, w')
         ∨ ∃ e wu, unlink sys file (record_op (OpExists file) w) = (Throw e, wu)
                   ∧ w' = print (LogError ("Error deleting file "
                                           +:+ js_to_string file +:+ ":")
                                   (error_message e)) wu))).
Proof.
  unfold deleteFiles_one. intros Hrun.
  destruct (truthy file && is_string file); unfold_monad Hrun;
    [|simplify_eq; split; [done|by left]].
  destruct (path_exists sys (nodes w) file);
    [|simplify_eq; split; [done|right; by left]].
  next_call Hrun; simplify_eq.
  - destruct a. split; [done|]. right. right. split_and!; [done..|by left].
  - split; [done|]. right. right. split_and!; [done..|]. right. eauto.
Qed.

Lemma deleteFiles_one_ops file w r w' :
  deleteFiles_one sys file w = (r, w') →
  ∃ issued, ops w' = ops w ++ issued
            ∧ (truthy file && is_string file = true → OpExists file ∈ issued).
Proof.
  intros (_ & [(Hg & ->)|[(Hg & _ & ->)|(Hg & _ & [Hun|(e & wu & Hun & ->)])]])
    %deleteFiles_one_inv.
  - exists []. rewrite app_nil_r. split; [done|]. congruence.
  - exists [OpExists file]. split; [done|]. intros _. left.
  - apply unlink_ok in Hun as (Ho & _). world_simpl.
    exists [OpExists file; OpUnlink file]. rewrite Ho, <- app_assoc.
    split; [done|]. intros _. left.
  - apply unlink_throw in Hun as (Ho & _). world_simpl.
    exists [OpExists file; OpUnlink file]. rewrite Ho, <- app_assoc.
    split; [done|]. intros _. left.
Qed.

Lemma deleteFiles_loop_ops files w :
  ∃ w' issued,
    deleteFiles_loop sys files w = (Ok tt, w') ∧ ops w' = ops w ++ issued ∧
    ∀ file, file ∈ files → truthy file && is_string file = true →
            OpExists file ∈ issued.
Proof.
  revert w. induction files as [|file files IH]; intros w.
  - exists w, []. rewrite app_nil_r. split_and!; [done..|].
    intros file Hin. by apply elem_of_nil in Hin.
  - cbn [deleteFiles_loop]. unfold bind.
    destruct (deleteFiles_one sys file w) as [r w1] eqn:Hone.
    pose proof Hone as [-> _]%deleteFiles_one_inv.
    apply deleteFiles_one_ops in Hone as (issued1 & Ho1 & Hin1).
    destruct (IH w1) as (w' & issued & -> & Ho & Hin).
    exists w', (issued1 ++ issued). rewrite Ho, Ho1, <- app_assoc.
    split_and!; [done..|].
    intros f [->|Hf]%elem_of_cons Hg; apply elem_of_app; eauto.
Qed.

(** C9. [deleteFiles] never throws.  Whatever its argument, an array or a
    single value treated as a one-element array, the call completes; the
    turn of one element always completes, whatever that element is and
    whether or not its unlink fails, and the rest of the array is then
    processed from the state that turn leaves; every element that is a
    non-empty string has its existence tested; and an unlink that fails is
    logged with its message. *)
Theorem deleteFiles_never_throws :
  (∀ files w, ∃ w', deleteFiles sys files w = (Ok tt, w')) ∧
  (∀ v w, isArray v = false →
          deleteFiles sys v w = deleteFiles sys (VArr [v]) w) ∧
  (∀ file rest w,
      ∃ w1, deleteFiles_one sys file w = (Ok tt, w1)
            ∧ deleteFiles sys (VArr (file :: rest)) w
              = deleteFiles sys (VArr rest) w1) ∧
  (∀ files w, ∃ w' issued,
      deleteFiles sys (VArr files) w = (Ok tt, w') ∧ ops w' = ops w ++ issued ∧
      ∀ file, file ∈ files → truthy file && is_string file = true →
              OpExists file ∈ issued) ∧
  (∀ file w e wu,
      truthy file && is_string file = true →
      path_exists sys (nodes w) file = true →
      unlink sys file (record_op (OpExists file) w) = (Throw e, wu) →
      deleteFiles_one sys file w
      = (Ok tt, print (LogError ("Error deleting file "
                                 +:+ js_to_string file +:+ ":")
                         (error_message e)) wu)).
Proof.
  split_and!.
  - intros files w. unfold deleteFiles.
    destruct (deleteFiles_loop_ops
                match files with VArr l => l | _ => [files] end w)
      as (w' & _ & Hrun & _).
    eauto.
  - intros v w Harr. by destruct v.
  - intros file rest w.
    destruct (deleteFiles_one sys file w) as [r w1] eqn:Hone.
    pose proof Hone as [-> _]%deleteFiles_one_inv.
    exists w1. split; [done|].
    unfold deleteFiles. cbn [deleteFiles_loop]. unfold bind. by rewrite Hone.
  - intros files w. apply deleteFiles_loop_ops.
  - intros file w e wu Hg Hex Hun.
    unfold deleteFiles_one. rewrite Hg.
    cbv [bind try_catch ret throw console_error existsSync].
    by rewrite Hex, Hun.
Qed.

(** *** deleteFileAndEmptyParent *)

(** Every way a call can go: nothing touched; the file deleted and the
    parent left alone (its listing failed or was not empty); or the file
    deleted, the parent found empty and its removal issued. *)
Lemma deleteFileAndEmptyParent_inv filePath w r w' :
  deleteFileAndEmptyParent sys filePath w = (r, w') →
  ∃ issued, ops w' = ops w ++ issued ∧
    ((nodes w' = nodes w ∧ ∀ d, OpRmdir d ∉ issued)
     ∨ (∃ s k f, filePath = VStr s ∧ resolve sys s = Some k
                 ∧ lookup_node (nodes w) k = Some (File f)
                 ∧ nodes w' = delete k (nodes w)
                 ∧ ∀ d, OpRmdir d ∉ issued)
     ∨ (∃ s k f kd, filePath = VStr s ∧ resolve sys s = Some k
                    ∧ lookup_node (nodes w) k = Some (File f)
                    ∧ resolve sys (path_dirname s) = Some kd
                    ∧ dir_entries (delete k (nodes w)) kd = []
                    ∧ issued = [OpExists filePath; OpUnlink filePath;
                                OpReaddir (path_dirname s);
                                OpRmdir (path_dirname s)]
                    ∧ (nodes w' = delete k (nodes w)
                       ∨ (delete k (nodes w) !! kd = Some Dir
                          ∧ nodes w' = delete kd (delete k (nodes w)))))).
Proof.
  unfold deleteFileAndEmptyParent. intros Hrun.
  destruct (truthy filePath && is_string filePath) eqn:Hg; unfold_monad Hrun.
  2:{ simplify_eq. exists []. rewrite app_nil_r. split; [done|]. left.
      split; [done|]. intros d Hin. by apply elem_of_nil in Hin. }
  apply string_guard in Hg as (s & -> & Hs). cbn [js_to_string] in Hrun.
  destruct (path_exists sys (nodes w) (VStr s)) eqn:Hex.
  2:{ simplify_eq. exists [OpExists (VStr s)]. split; [done|]. left.
      split; [done|]. intros d Hin.
      apply elem_of_cons in Hin as [[=]|Hin]. by apply elem_of_nil in Hin. }
  destruct (unlink sys (VStr s) _) as [[[]|e] w1] eqn:Hun.
  2:{ simplify_eq. apply unlink_throw in Hun as (Ho & _ & Hn). world_simpl.
      exists [OpExists (VStr s); OpUnlink (VStr s)]. rewrite Ho, <- app_assoc.
      split; [done|]. left. split; [done|]. intros d Hin.
      repeat (apply elem_of_cons in Hin as [[=]|Hin]).
      by apply elem_of_nil in Hin. }
  apply unlink_ok in Hun as (Ho1 & _ & s' & k & f & [= <-] & Hk & Hfile & Hn1).
  world_simpl.
  destruct (readdir sys (path_dirname s) _) as [[names|e] w2] eqn:Hrd.
  2:{ simplify_eq. apply readdir_throw in Hrd as (Ho2 & _ & Hn2). world_simpl.
      exists [OpExists (VStr s); OpUnlink (VStr s); OpReaddir (path_dirname s)].
      rewrite Ho2, Ho1, <- !app_assoc. split; [done|]. right. left.
      exists s, k, f. split_and!; [done..|congruence|]. intros d Hin.
      repeat (apply elem_of_cons in Hin as [[=]|Hin]).
      by apply elem_of_nil in Hin. }
  apply readdir_ok in Hrd as (Ho2 & _ & Hn2 & kd & Hkd & Hdir & ->).
  world_simpl. rewrite Hn1 in *.
  destruct (dir_entries (delete k (nodes w)) kd) as [|name names] eqn:Hent;
    cbn [List.length Nat.eqb] in Hrun.
  2:{ simplify_eq. world_simpl.
      exists [OpExists (VStr s); OpUnlink (VStr s); OpReaddir (path_dirname s)].
      rewrite Ho2, Ho1, <- !app_assoc. split; [done|]. right. left.
      exists s, k, f. split_and!; [done..|congruence|]. intros d Hin.
      repeat (apply elem_of_cons in Hin as [[=]|Hin]).
      by apply elem_of_nil in Hin. }
  exists [OpExists (VStr s); OpUnlink (VStr s); OpReaddir (path_dirname s);
          OpRmdir (path_dirname s)].
  destruct (rmdir sys (path_dirname s) _) as [[[]|e] w3] eqn:Hrm; simplify_eq.
  - apply rmdir_ok in Hrm as (Ho3 & _ & kd' & Hkd' & Hnil & Hd & _ & Hn3).
    world_simpl. assert (kd' = kd) as -> by congruence.
    rewrite Ho3, Ho2, Ho1, <- !app_assoc. split; [done|]. right. right.
    exists s, k, f, kd. split_and!; [done..|]. right.
    rewrite Hn2 in Hd, Hn3. done.
  - apply rmdir_throw in Hrm as (Ho3 & _ & Hn3). world_simpl.
    rewrite Ho3, Ho2, Ho1, <- !app_assoc. split; [done|]. right. right.
    exists s, k, f, kd. split_and!; [done..|]. left. congruence.
Qed.

Lemma deleted_file_is_not_dir (t : tree) k f kd :
  lookup_node t k = Some (File f) → t !! kd = Some Dir →
  delete k t !! kd = None → False.
Proof.
  intros Hfile Hdir Hgone.
  destruct (decide (k = kd)) as [->|Hne].
  - destruct kd; [done|]. cbn in Hfile. congruence.
  - rewrite lookup_delete_ne in Hgone by done. congruence.
Qed.

(** C4. [deleteFileAndEmptyParent] issues the removal of a directory only
    for the parent directory of the given path, only after the file has
    been unlinked, and only when that directory has no entry left in the
    tree the unlink produced; accordingly a directory present before the
    call and absent after it is that parent, and it was empty once the file
    was gone. *)
Theorem parent_removed_only_when_empty filePath w r w' :
  deleteFileAndEmptyParent sys filePath w = (r, w') →
  (∀ issued d,
      ops w' = ops w ++ issued → OpRmdir d ∈ issued →
      ∃ s k kd,
        filePath = VStr s ∧ d = path_dirname s ∧
        resolve sys s = Some k ∧ is_file (nodes w) k = true ∧
        resolve sys d = Some kd ∧
        dir_entries (delete k (nodes w)) kd = [] ∧
        issued = [OpExists filePath; OpUnlink filePath; OpReaddir d; OpRmdir d])
  ∧ (∀ kd,
        nodes w !! kd = Some Dir → nodes w' !! kd = None →
        ∃ s k,
          filePath = VStr s ∧ resolve sys s = Some k ∧
          resolve sys (path_dirname s) = Some kd ∧
          dir_entries (delete k (nodes w)) kd = []).
Proof.
  intros (issued0 & Ho & Hcases)%deleteFileAndEmptyParent_inv. split.
  - intros issued d Hissued Hin.
    assert (issued = issued0) as -> by (apply (app_inv_head (ops w)); congruence).
    destruct Hcases as [[_ Hno]|[(s & k & f & _ & _ & _ & _ & Hno)
                       |(s & k & f & kd & -> & Hk & Hfile & Hkd & Hent & -> & _)]];
      [by apply Hno in Hin..|].
    assert (d = path_dirname s) as ->.
    { repeat (apply elem_of_cons in Hin as [[=]|Hin]); [done|].
      by apply elem_of_nil in Hin. }
    exists s, k, kd. split_and!; try done.
    unfold is_file. by rewrite Hfile.
  - intros kd Hdir Hgone.
    destruct Hcases as [[Hn _]|[(s & k & f & _ & _ & Hfile & Hn & _)
                       |(s & k & f & kd0 & -> & Hk & Hfile & Hkd & Hent & _
                         & [Hn|[Hd Hn]])]];
      rewrite Hn in Hgone.
    + congruence.
    + by destruct (deleted_file_is_not_dir _ _ _ _ Hfile Hdir Hgone).
    + by destruct (deleted_file_is_not_dir _ _ _ _ Hfile Hdir Hgone).
    + destruct (decide (kd0 = kd)) as [->|Hne]; [by exists s, k|].
      rewrite lookup_delete_ne in Hgone by done.
      by destruct (deleted_file_is_not_dir _ _ _ _ Hfile Hdir Hgone).
Qed.

End Delete.

(** ** Which failures are swallowed and which are thrown *)

Section FailurePolicy.

Variable sys : host.

(** C6 (amended). [ensureDirectoriesExist] swallows every failure: for
    every list and options it returns its statistics, whose three counters
    add up to the number of directories and whose [created] and [failed]
    account for the [mkdir] calls issued; a failing [mkdir] adds one to
    [failed], and is logged as an error unless [options.silent] is set, in
    which case nothing at all is printed.  [ensureDir], [processImage] and
    [deleteFile], for their part, throw when an operation of theirs fails:
    [ensureDir] throws the error of its failing [mkdir], a failure in the
    [try] block of [processImage] makes the call throw, and [deleteFile]
    throws the error its unlink failed with. *)
Theorem failure_policy :
  (∀ directories options w,
      ∃ stats w' issued printed,
        ensureDirectoriesExist sys directories options w = (Ok stats, w') ∧
        (created stats + existing stats + failed stats
         = List.length directories)%nat ∧
        ops w' = ops w ++ issued ∧
        count_mkdir issued = (created stats + failed stats)%nat ∧
        console w' = console w ++ printed ∧
        count_errors printed
        = (if default false (silent options) then 0 else failed stats)%nat ∧
        (default false (silent options) = true → printed = []))
  ∧ (∀ silent rec dir stats w e wm,
        path_exists sys (nodes w) dir = false →
        mkdirSync sys dir rec (record_op (OpExists dir) w) = (Throw e, wm) →
        ensure_one sys silent rec dir stats w
        = (Ok {| created := created stats; existing := existing stats;
                 failed := S (failed stats) |},
           if silent then wm
           else print (LogError ("Failed to create directory: "
                                 +:+ js_to_string dir)
                         (error_message e)) wm))
  ∧ (∀ dirPath w e wm,
        path_exists sys (nodes w) dirPath = false →
        mkdirSync sys dirPath true (record_op (OpExists dirPath) w)
        = (Throw e, wm) →
        ensureDir sys dirPath w = (Throw e, wm))
  ∧ (∀ options w optimizedPath w1 e0 w2,
        processImage_entry sys options w = (Ok optimizedPath, w1) →
        processImage_try sys (inputPath options) optimizedPath
          (default 2000%Z (width options)) (default 2000%Z (height options))
          (default 85%Z (quality options)) w1 = (Throw e0, w2) →
        ∃ e w', processImage sys options w = (Throw e, w'))
  ∧ (∀ filePath w e wu,
        truthy filePath && is_string filePath = true →
        path_exists sys (nodes w) filePath = true →
        unlink sys filePath (record_op (OpExists filePath) w) = (Throw e, wu) →
        ∃ w', deleteFile sys filePath w = (Throw e, w')).
Proof.
  split_and!.
  - intros directories options w.
    rewrite ensureDirectoriesExist_unfold. cbn zeta.
    set (quiet := default false (silent options)).
    set (w0 := if quiet then w else _).
    destruct (ensure_loop_total sys quiet (default true (recursive options))
                directories {| created := 0; existing := 0; failed := 0 |} w0)
      as (stats & w1 & Hloop).
    rewrite Hloop.
    pose proof (ensure_loop_counts _ _ _ _ _ _ _ _ Hloop) as (_ & _ & _ & Hsum).
    pose proof (ensure_loop_ops _ _ _ _ _ _ _ _ Hloop) as (issued & Ho & Hmk).
    pose proof (ensure_loop_console _ _ _ _ _ _ _ _ Hloop)
      as (printed & Hc & Hquiet & Hcount).
    cbn [created existing failed] in *. unfold w0 in *. clear w0.
    destruct quiet.
    + exists stats, w1, issued, printed. rewrite (Hquiet eq_refl) in *.
      split_and!; try done; lia.
    + exists stats, (print (LogInfo "Directory check completed.") w1), issued,
        ([LogInfo "Ensuring required directories exist..."] ++ printed
         ++ [LogInfo "Directory check completed."]).
      world_simpl. rewrite Hc, <- !app_assoc.
      split_and!; [done|lia|done|lia|done| |done].
      rewrite !count_errors_app, (Hcount eq_refl). cbn. lia.
  - intros silent rec dir stats w e wm Hex Hmk.
    unfold ensure_one.
    cbv [bind try_catch ret when console_log console_error existsSync].
    rewrite Hex. cbn [negb]. rewrite Hmk. by destruct silent.
  - intros dirPath w e wm Hex Hmk.
    unfold ensureDir. cbv [bind ret existsSync].
    rewrite Hex. cbn [negb]. by rewrite Hmk.
  - intros options w optimizedPath w1 e0 w2 Hentry Htry.
    rewrite processImage_unfold. unfold bind at 1, try_catch.
    rewrite Hentry, Htry.
    destruct (processImage_catch sys _ _ _ _) as [r w'] eqn:Hcatch.
    apply processImage_catch_throws in Hcatch as [e ->]. eauto.
  - intros filePath w e wu Hg Hex Hun.
    unfold deleteFile. rewrite Hg.
    cbv [bind try_catch ret throw console_error existsSync].
    rewrite Hex, Hun. eauto.
Qed.

End FailurePolicy.

(** ** The theorems at work on the sample states *)

Ltac by_running := vm_compute; reflexivity.

Lemma processImage_success_removes_original_witness :
  processImage sample_host sample_options sample_world
  = (Ok sample_result,
     state_after (processImage sample_host sample_options) sample_world)
  ∧ path_exists sample_host
      (nodes (state_after (processImage sample_host sample_options) sample_world))
      (VStr "/srv/in/a.jpg") = false.
Proof.
  assert (processImage sample_host sample_options sample_world
          = (Ok sample_result,
             state_after (processImage sample_host sample_options) sample_world))
    as Hrun by by_running.
  split; [exact Hrun|].
  exact (processImage_success_removes_original sample_host sample_options
           sample_world sample_result _ Hrun).
Defined.

Lemma processImage_failure_cleanup_witness :
  processImage_entry full_disk_host sample_options sample_world
  = (Ok "/srv/out/a.webp",
     state_after (processImage_entry full_disk_host sample_options) sample_world)
  ∧ processImage_try full_disk_host (VStr "/srv/in/a.jpg") "/srv/out/a.webp"
      2000 2000 85
      (state_after (processImage_entry full_disk_host sample_options)
         sample_world)
    = (Throw (SystemError ENOSPC "write" "/srv/out/a.webp"),
       state_after
         (processImage_try full_disk_host (VStr "/srv/in/a.jpg")
            "/srv/out/a.webp" 2000 2000 85)
         (state_after (processImage_entry full_disk_host sample_options)
            sample_world))
  ∧ path_exists full_disk_host
      (nodes (state_after
                (processImage_try full_disk_host (VStr "/srv/in/a.jpg")
                   "/srv/out/a.webp" 2000 2000 85)
                (state_after (processImage_entry full_disk_host sample_options)
                   sample_world)))
      (VStr "/srv/out/a.webp") = true
  ∧ ∃ e w',
      processImage full_disk_host sample_options sample_world = (Throw e, w') ∧
      ((e = SystemError ENOSPC "write" "/srv/out/a.webp"
        ∧ path_exists full_disk_host (nodes w') (VStr "/srv/out/a.webp") = false)
       ∨ (∃ wu,
            nodes wu
            = nodes (state_after
                       (processImage_try full_disk_host (VStr "/srv/in/a.jpg")
                          "/srv/out/a.webp" 2000 2000 85)
                       (state_after
                          (processImage_entry full_disk_host sample_options)
                          sample_world))
            ∧ unlink full_disk_host (VStr "/srv/out/a.webp") wu = (Throw e, w')
            ∧ nodes w'
              = nodes (state_after
                         (processImage_try full_disk_host (VStr "/srv/in/a.jpg")
                            "/srv/out/a.webp" 2000 2000 85)
                         (state_after
                            (processImage_entry full_disk_host sample_options)
                            sample_world))
            ∧ path_exists full_disk_host (nodes w') (VStr "/srv/out/a.webp")
              = true)).
Proof.
  assert (processImage_entry full_disk_host sample_options sample_world
          = (Ok "/srv/out/a.webp",
             state_after (processImage_entry full_disk_host sample_options)
               sample_world)) as Hentry by by_running.
  assert (processImage_try full_disk_host (VStr "/srv/in/a.jpg")
            "/srv/out/a.webp" 2000 2000 85
            (state_after (processImage_entry full_disk_host sample_options)
               sample_world)
          = (Throw (SystemError ENOSPC "write" "/srv/out/a.webp"),
             state_after
               (processImage_try full_disk_host (VStr "/srv/in/a.jpg")
                  "/srv/out/a.webp" 2000 2000 85)
               (state_after (processImage_entry full_disk_host sample_options)
                  sample_world))) as Htry by by_running.
  split; [exact Hentry|]. split; [exact Htry|]. split; [by_running|].
  exact (processImage_failure_cleanup full_disk_host sample_options sample_world
           _ _ _ _ Hentry Htry).
Defined.

(** On the full disk the torn output is removed and the caller gets the
    write error. *)
Example processImage_torn_output_removed :
  (processImage full_disk_host sample_options sample_world).1
  = Throw (SystemError ENOSPC "write" "/srv/out/a.webp")
  ∧ dir_entries
      (nodes (state_after (processImage full_disk_host sample_options)
                sample_world)) ["srv"; "out"] = []
  ∧ dir_entries
      (nodes (state_after (processImage full_disk_host sample_options)
                sample_world)) ["srv"; "in"] = ["a.jpg"].
Proof. split_and!; by_running. Qed.

(** C2, as stated, fails: the write fails on a full disk and leaves a
    truncated output, the cleanup's unlink of that output fails in turn, and
    it is the unlink's error that the caller receives, not the one the block
    failed with; the partial output is still there. *)
Lemma processImage_cleanup_error_replaces_cause :
  processImage_entry busy_output_host sample_options sample_world
  = (Ok "/srv/out/a.webp",
     state_after (processImage_entry busy_output_host sample_options)
       sample_world)
  ∧ (processImage_try busy_output_host (VStr "/srv/in/a.jpg") "/srv/out/a.webp"
       2000 2000 85
       (state_after (processImage_entry busy_output_host sample_options)
          sample_world)).1
    = Throw (SystemError ENOSPC "write" "/srv/out/a.webp")
  ∧ (processImage busy_output_host sample_options sample_world).1
    = Throw (SystemError EBUSY "unlink" "/srv/out/a.webp")
  ∧ SystemError EBUSY "unlink" "/srv/out/a.webp"
    ≠ SystemError ENOSPC "write" "/srv/out/a.webp"
  ∧ dir_entries
      (nodes (state_after (processImage busy_output_host sample_options)
                sample_world)) ["srv"; "out"] = ["a.webp"].
Proof. split_and!; [by_running..|discriminate|by_running]. Qed.

(** The same happens without any fault when a directory sits at the output
    path: the write fails, and so does the unlink of a directory. *)
Example processImage_output_is_a_directory :
  (processImage_try sample_host (VStr "/srv/in/a.jpg") "/srv/out/a.webp"
     2000 2000 85
     (state_after (processImage_entry sample_host sample_options)
        blocked_world)).1
  = Throw (SystemError EISDIR "open" "/srv/out/a.webp")
  ∧ (processImage sample_host sample_options blocked_world).1
    = Throw (SystemError EISDIR "unlink" "/srv/out/a.webp")
  ∧ path_exists sample_host
      (nodes (state_after (processImage sample_host sample_options)
                blocked_world))
      (VStr "/srv/out/a.webp") = true.
Proof. split_and!; by_running. Qed.

Lemma provisioning_idempotent_witness :
  (ensureDirectoriesExist sample_host [VStr "x/y"; VStr "in"] defaults sample_world
   = (Ok {| created := 1; existing := 1; failed := 0 |},
      state_after
        (ensureDirectoriesExist sample_host [VStr "x/y"; VStr "in"] defaults)
        sample_world)
   ∧ ∃ w2 issued,
       ensureDirectoriesExist sample_host [VStr "x/y"; VStr "in"] defaults
         (state_after
            (ensureDirectoriesExist sample_host [VStr "x/y"; VStr "in"] defaults)
            sample_world)
       = (Ok {| created := 0; existing := 2; failed := 0 |}, w2)
       ∧ nodes w2
         = nodes (state_after
                    (ensureDirectoriesExist sample_host [VStr "x/y"; VStr "in"]
                       defaults) sample_world)
       ∧ ops w2
         = ops (state_after
                  (ensureDirectoriesExist sample_host [VStr "x/y"; VStr "in"]
                     defaults) sample_world) ++ issued
       ∧ count_mkdir issued = 0)
  ∧ (ensureDir sample_host (VStr "x/y") sample_world
     = (Ok (VStr "x/y"),
        state_after (ensureDir sample_host (VStr "x/y")) sample_world)
     ∧ ∃ w2,
         ensureDir sample_host (VStr "x/y")
           (state_after (ensureDir sample_host (VStr "x/y")) sample_world)
         = (Ok (VStr "x/y"), w2)
         ∧ nodes w2
           = nodes (state_after (ensureDir sample_host (VStr "x/y")) sample_world)
         ∧ ops w2
           = ops (state_after (ensureDir sample_host (VStr "x/y")) sample_world)
             ++ [OpExists (VStr "x/y")]).
Proof.
  assert (ensureDirectoriesExist sample_host [VStr "x/y"; VStr "in"] defaults
            sample_world
          = (Ok {| created := 1; existing := 1; failed := 0 |},
             state_after
               (ensureDirectoriesExist sample_host [VStr "x/y"; VStr "in"]
                  defaults) sample_world)) as Hfirst by by_running.
  assert (ensureDir sample_host (VStr "x/y") sample_world
          = (Ok (VStr "x/y"),
             state_after (ensureDir sample_host (VStr "x/y")) sample_world))
    as Hdir by by_running.
  split; (split; [done|]).
  - exact (proj1 (provisioning_idempotent sample_host) _ _ _ _ _ Hfirst eq_refl).
  - exact (proj2 (provisioning_idempotent sample_host) _ _ _ _ Hdir).
Defined.

Lemma parent_removed_only_when_empty_witness :
  deleteFileAndEmptyParent sample_host (VStr "/srv/in/a.jpg") sample_world
  = (Ok tt,
     state_after (deleteFileAndEmptyParent sample_host (VStr "/srv/in/a.jpg"))
       sample_world)
  ∧ ∃ s k kd,
      VStr "/srv/in/a.jpg" = VStr s ∧ "/srv/in" = path_dirname s ∧
      resolve sample_host s = Some k ∧
      is_file (nodes sample_world) k = true ∧
      resolve sample_host "/srv/in" = Some kd ∧
      dir_entries (delete k (nodes sample_world)) kd = [] ∧
      [OpExists (VStr "/srv/in/a.jpg"); OpUnlink (VStr "/srv/in/a.jpg");
       OpReaddir "/srv/in"; OpRmdir "/srv/in"]
      = [OpExists (VStr "/srv/in/a.jpg"); OpUnlink (VStr "/srv/in/a.jpg");
         OpReaddir "/srv/in"; OpRmdir "/srv/in"].
Proof.
  assert (deleteFileAndEmptyParent sample_host (VStr "/srv/in/a.jpg") sample_world
          = (Ok tt,
             state_after
               (deleteFileAndEmptyParent sample_host (VStr "/srv/in/a.jpg"))
               sample_world)) as Hrun by by_running.
  split; [exact Hrun|].
  apply (proj1 (parent_removed_only_when_empty sample_host _ _ _ _ Hrun)
           [OpExists (VStr "/srv/in/a.jpg"); OpUnlink (VStr "/srv/in/a.jpg");
            OpReaddir "/srv/in"; OpRmdir "/srv/in"] "/srv/in").
  - by_running.
  - repeat constructor.
Defined.



Lemma failure_policy_witness :
  (path_exists sample_host (nodes sample_world) (VStr "in/a.jpg/thumbs") = false
   ∧ mkdirSync sample_host (VStr "in/a.jpg/thumbs") true
       (record_op (OpExists (VStr "in/a.jpg/thumbs")) sample_world)
     = (Throw (SystemError ENOTDIR "mkdir" "in/a.jpg/thumbs"),
        state_after (mkdirSync sample_host (VStr "in/a.jpg/thumbs") true)
          (record_op (OpExists (VStr "in/a.jpg/thumbs")) sample_world))
   ∧ ensure_one sample_host false true (VStr "in/a.jpg/thumbs")
       {| created := 0; existing := 0; failed := 0 |} sample_world
     = (Ok {| created := 0; existing := 0; failed := 1 |},
        print (LogError "Failed to create directory: in/a.jpg/thumbs"
                 "ENOTDIR: mkdir 'in/a.jpg/thumbs'")
          (state_after (mkdirSync sample_host (VStr "in/a.jpg/thumbs") true)
             (record_op (OpExists (VStr "in/a.jpg/thumbs")) sample_world))))
  ∧ ensureDir sample_host (VStr "in/a.jpg/thumbs") sample_world
    = (Throw (SystemError ENOTDIR "mkdir" "in/a.jpg/thumbs"),
       state_after (mkdirSync sample_host (VStr "in/a.jpg/thumbs") true)
         (record_op (OpExists (VStr "in/a.jpg/thumbs")) sample_world))
  ∧ (∃ e w', processImage sample_host sample_options stale_world = (Throw e, w'))
  ∧ (truthy (VStr "out") && is_string (VStr "out") = true
     ∧ path_exists sample_host (nodes sample_world) (VStr "out") = true
     ∧ unlink sample_host (VStr "out")
         (record_op (OpExists (VStr "out")) sample_world)
       = (Throw (SystemError EISDIR "unlink" "out"),
          state_after (unlink sample_host (VStr "out"))
            (record_op (OpExists (VStr "out")) sample_world))
     ∧ ∃ w', deleteFile sample_host (VStr "out") sample_world
             = (Throw (SystemError EISDIR "unlink" "out"), w')).
Proof.
  destruct (failure_policy sample_host)
    as (_ & Hone & Hdir & Hprocess & Hdelete).
  split_and!.
  - by_running.
  - by_running.
  - apply (Hone false true (VStr "in/a.jpg/thumbs")
             {| created := 0; existing := 0; failed := 0 |} sample_world
             (SystemError ENOTDIR "mkdir" "in/a.jpg/thumbs")
             (state_after (mkdirSync sample_host (VStr "in/a.jpg/thumbs") true)
                (record_op (OpExists (VStr "in/a.jpg/thumbs")) sample_world)));
      by_running.
  - apply (Hdir (VStr "in/a.jpg/thumbs") sample_world); by_running.
  - apply (Hprocess sample_options stale_world "/srv/out/a.webp"
             (state_after (processImage_entry sample_host sample_options)
                stale_world)
             (Error "Input file contains unsupported image format")
             (state_after
                (processImage_try sample_host (VStr "/srv/in/a.jpg")
                   "/srv/out/a.webp" 2000 2000 85)
                (state_after (processImage_entry sample_host sample_options)
                   stale_world)));
      by_running.
  - by_running.
  - by_running.
  - by_running.
  - apply (Hdelete (VStr "out") sample_world (SystemError EISDIR "unlink" "out")
             (state_after (unlink sample_host (VStr "out"))
                (record_op (OpExists (VStr "out")) sample_world)));
      by_running.
Defined.

(** C6, as stated, fails: with [silent] set a failing [mkdir] is counted
    by [ensureDirectoriesExist] but not logged, the console is as it was;
    and the other directory helper, [ensureDir], does not swallow the same
    failure but throws it. *)
Lemma silent_failure_is_not_logged :
  (ensureDir sample_host (VStr "in/a.jpg/thumbs") sample_world).1
  = Throw (SystemError ENOTDIR "mkdir" "in/a.jpg/thumbs")
  ∧
  (ensureDirectoriesExist sample_host [VStr "in/a.jpg/thumbs"] quiet
     sample_world).1
  = Ok {| created := 0; existing := 0; failed := 1 |}
  ∧ console (state_after
               (ensureDirectoriesExist sample_host [VStr "in/a.jpg/thumbs"] quiet)
               sample_world)
    = console sample_world
  ∧ ops (state_after
           (ensureDirectoriesExist sample_host [VStr "in/a.jpg/thumbs"] quiet)
           sample_world)
    = [OpExists (VStr "in/a.jpg/thumbs"); OpMkdir (VStr "in/a.jpg/thumbs") true].
Proof. split_and!; by_running. Qed.

(** C7, as stated, fails: with [UPLOAD_DIR] set to the empty string the
    base is the configured directory, not the variable; and with a regular
    file at the resulting path the call returns it although no directory
    exists there. *)
Lemma getUploadDir_empty_env_and_occupied_path :
  env_UPLOAD_DIR empty_env_host = Some ""
  ∧ (getUploadDir empty_env_host "/srv/temp_photos" (VNum 7) (VNum 3)
       occupied_world).1
    = Ok (VStr "/srv/temp_photos/user_7/memory_3")
  ∧ path_join "" "user_7/memory_3" = "user_7/memory_3"
  ∧ lookup_node
      (nodes (state_after
                (getUploadDir empty_env_host "/srv/temp_photos" (VNum 7) (VNum 3))
                occupied_world))
      ["srv"; "temp_photos"; "user_7"; "memory_3"]
    = Some text_file
  ∧ text_file ≠ Dir.
Proof. split_and!; [by_running..|discriminate]. Qed.

Lemma processImage_requires_target_and_name_witness :
  (truthy (targetDir nameless_options) = false
   ∨ truthy (baseName nameless_options) = false)
  ∧ ∃ w',
      processImage sample_host nameless_options sample_world
      = (Throw (Error "targetDir and baseName are required for processImage"), w')
      ∧ ops w' = ops sample_world ∧ nodes w' = nodes sample_world.
Proof.
  assert (truthy (targetDir nameless_options) = false
          ∨ truthy (baseName nameless_options) = false) as Hfalsy
    by (left; reflexivity).
  split; [exact Hfalsy|].
  exact (processImage_requires_target_and_name sample_host nameless_options
           sample_world Hfalsy).
Defined.

Lemma deleteFiles_never_throws_witness :
  (truthy (VStr "out") && is_string (VStr "out") = true
   ∧ path_exists sample_host (nodes sample_world) (VStr "out") = true
   ∧ unlink sample_host (VStr "out")
       (record_op (OpExists (VStr "out")) sample_world)
     = (Throw (SystemError EISDIR "unlink" "out"),
        state_after (unlink sample_host (VStr "out"))
          (record_op (OpExists (VStr "out")) sample_world))
   ∧ deleteFiles_one sample_host (VStr "out") sample_world
     = (Ok tt,
        print (LogError "Error deleting file out:" "EISDIR: unlink 'out'")
          (state_after (unlink sample_host (VStr "out"))
             (record_op (OpExists (VStr "out")) sample_world))))
  ∧ (isArray (VStr "in/a.jpg") = false
     ∧ deleteFiles sample_host (VStr "in/a.jpg") sample_world
       = deleteFiles sample_host (VArr [VStr "in/a.jpg"]) sample_world)
  ∧ ∃ w', deleteFiles sample_host
            (VArr [VStr "out"; VNull; VNum 4; VStr "missing"; VStr "in/a.jpg"])
            sample_world = (Ok tt, w').
Proof.
  destruct (deleteFiles_never_throws sample_host)
    as (Htotal & Hsingle & _ & _ & Hlogged).
  assert (unlink sample_host (VStr "out")
            (record_op (OpExists (VStr "out")) sample_world)
          = (Throw (SystemError EISDIR "unlink" "out"),
             state_after (unlink sample_host (VStr "out"))
               (record_op (OpExists (VStr "out")) sample_world))) as Hun
    by by_running.
  split_and!; [reflexivity|by_running|exact Hun| |reflexivity| |].
  - exact (Hlogged (VStr "out") sample_world _ _ eq_refl eq_refl Hun).
  - exact (Hsingle (VStr "in/a.jpg") sample_world eq_refl).
  - apply Htotal.
Defined.

(** [deleteFile] on the sample state: an upload is deleted, a missing path
    and a non-string are reported as [false], a directory makes it throw. *)
Example deleteFile_samples :
  (deleteFile sample_host (VStr "in/a.jpg") sample_world).1 = Ok true
  ∧ (deleteFile sample_host (VStr "in/b.jpg") sample_world).1 = Ok false
  ∧ (deleteFile sample_host (VNum 7) sample_world).1 = Ok false
  ∧ (deleteFile sample_host (VStr "") sample_world).1 = Ok false
  ∧ (deleteFile sample_host (VStr "in") sample_world).1
    = Throw (SystemError EISDIR "unlink" "in").
Proof. split_and!; by_running. Qed.

(** [getUploadDir] on the sample state. *)
Example getUploadDir_sample :
  (getUploadDir sample_host "/srv/temp_photos" (VNum 7) (VStr "m1") sample_world).1
  = Ok (VStr "/srv/temp_photos/user_7/memory_m1")
  ∧ lookup_node
      (nodes (state_after
                (getUploadDir sample_host "/srv/temp_photos" (VNum 7) (VStr "m1"))
                sample_world))
      ["srv"; "temp_photos"; "user_7"; "memory_m1"] = Some Dir.
Proof. split; by_running. Qed.

(** ** generateUniqueFilename *)

Lemma lower_char_slash c : Ascii.eqb (lower_char c) slash = Ascii.eqb c slash.
Proof. by destruct c as [[] [] [] [] [] [] [] []]. Qed.

Lemma lower_char_dot c : Ascii.eqb (lower_char c) dot = Ascii.eqb c dot.
Proof. by destruct c as [[] [] [] [] [] [] [] []]. Qed.

Lemma lower_char_idemp c : lower_char (lower_char c) = lower_char c.
Proof. by destruct c as [[] [] [] [] [] [] [] []]. Qed.

Lemma toLowerCase_idemp s : toLowerCase (toLowerCase s) = toLowerCase s.
Proof.
  induction s as [|c s IH]; [done|]. cbn. by rewrite lower_char_idemp, IH.
Qed.

Lemma has_slash_lower s : has_slash (toLowerCase s) = has_slash s.
Proof.
  induction s as [|c s IH]; [done|]. cbn. by rewrite lower_char_slash, IH.
Qed.

Lemma chars_lower s :
  list_ascii_of_string (toLowerCase s) = map lower_char (list_ascii_of_string s).
Proof. induction s as [|c s IH]; [done|]. cbn. by rewrite IH. Qed.

Lemma string_lower l :
  toLowerCase (string_of_list_ascii l) = string_of_list_ascii (map lower_char l).
Proof. induction l as [|c l IH]; [done|]. cbn. by rewrite IH. Qed.

Lemma has_slash_chars l :
  has_slash (string_of_list_ascii l)
  = existsb (fun c => Ascii.eqb c slash) l.
Proof. induction l as [|c l IH]; [done|]. cbn. by rewrite IH. Qed.

Lemma take_while_all {A} (f : A → bool) l :
  Forall (fun x => f x = true) (take_while f l).
Proof.
  induction l as [|x l IH]; cbn; [constructor|].
  destruct (f x) eqn:Hx; by constructor.
Qed.

Lemma take_while_sub {A} (P : A → Prop) (f : A → bool) l :
  Forall P l → Forall P (take_while f l).
Proof.
  induction 1 as [|x l Hx Hl IH]; cbn; [constructor|].
  destruct (f x); by constructor.
Qed.

Lemma take_while_map {A} (f : A → bool) (h : A → A) l :
  (∀ x, f (h x) = f x) →
  take_while f (map h l) = map h (take_while f l).
Proof.
  intros Hf. induction l as [|x l IH]; [done|]. cbn. rewrite Hf.
  destruct (f x); [|done]. cbn. by rewrite IH.
Qed.

Lemma drop_while_map {A} (f : A → bool) (h : A → A) l :
  (∀ x, f (h x) = f x) →
  drop_while f (map h l) = map h (drop_while f l).
Proof.
  intros Hf. induction l as [|x l IH]; [done|]. cbn. rewrite Hf.
  by destruct (f x).
Qed.

Lemma last_component_slash_free p :
  Forall (fun c => Ascii.eqb c slash = false) (last_component p).
Proof.
  unfold last_component. eapply Forall_impl; [apply take_while_all|].
  cbn. intros c Hc. by apply negb_true_iff.
Qed.

Lemma last_component_lower p :
  last_component (toLowerCase p) = map lower_char (last_component p).
Proof.
  unfold last_component. rewrite chars_lower, <- map_rev.
  rewrite drop_while_map by apply lower_char_slash.
  apply take_while_map. intros c. by rewrite lower_char_slash.
Qed.

(** An extension is empty or starts with its dot, and has no slash. *)
Lemma path_extname_shape p :
  has_slash (path_extname p) = false
  ∧ (path_extname p = "" ∨ ∃ rest, path_extname p = String dot rest).
Proof.
  unfold path_extname.
  pose proof (last_component_slash_free p) as Hfree.
  set (component := last_component p) in *.
  assert (has_slash
            (string_of_list_ascii
               (dot :: rev (take_while (fun c => negb (Ascii.eqb c dot)) component)))
          = false) as Hext.
  { rewrite has_slash_chars. cbn [existsb]. apply orb_false_intro; [done|].
    apply not_true_is_false. intros (c & Hin & Hc)%existsb_exists.
    apply in_rev in Hin.
    pose proof (take_while_sub _ (fun c => negb (Ascii.eqb c dot)) _ Hfree) as Hsub.
    rewrite List.Forall_forall in Hsub. specialize (Hsub c Hin). congruence. }
  destruct (drop_while _ component) as [|d before]; [by auto|].
  destruct before as [|c before]; [by auto|].
  destruct before as [|c' before].
  - destruct (take_while _ component) as [|e after] eqn:Hafter.
    + destruct (Ascii.eqb c dot); [by auto|]. split; [done|]. right. by eexists.
    + split; [exact Hext|]. right. by eexists.
  - split; [exact Hext|]. right. by eexists.
Qed.

(** The extension of the lower-cased name is the lower-cased extension. *)
Lemma path_extname_lower p :
  path_extname (toLowerCase p) = toLowerCase (path_extname p).
Proof.
  unfold path_extname. rewrite last_component_lower.
  set (component := last_component p).
  rewrite drop_while_map, take_while_map
    by (intros c; by rewrite lower_char_dot).
  destruct (drop_while _ component) as [|d before]; [done|]. cbn [map].
  destruct before as [|c before]; [done|]. cbn [map].
  assert (toLowerCase
            (string_of_list_ascii
               (dot :: rev (take_while (fun c => negb (Ascii.eqb c dot)) component)))
          = string_of_list_ascii
              (dot :: rev (map lower_char
                             (take_while (fun c => negb (Ascii.eqb c dot))
                                component)))) as Hext.
  { rewrite string_lower. cbn [map]. by rewrite map_rev. }
  destruct before as [|c' before]; cbn [map]; [|by rewrite Hext].
  destruct (take_while _ component) as [|e after] eqn:Hafter; cbn [map].
  - rewrite lower_char_dot. by destruct (Ascii.eqb c dot).
  - by rewrite Hext.
Qed.

Lemma string_app_same_length (a b x y : string) :
  String.length a = String.length b → a +:+ x = b +:+ y → a = b ∧ x = y.
Proof.
  revert b. induction a as [|c a IH]; intros [|d b]; try done.
  cbn [String.length]. intros [= Hlen]. rewrite !string_app_cons.
  intros [= -> Hrest]. destruct (IH b Hlen Hrest) as [-> ->]. done.
Qed.

Section GeneratedNames.

Variable sys : host.

(** X1. Whatever the original name (an ASCII string), a file name
    generated from an identifier that has no slash and does not start with a
    dot is a single path segment: it contains no slash, and joined to a
    directory it names an entry directly inside that directory. *)
Theorem generated_name_stays_in_directory dir kd uuid c rest name f :
  uuid = String c rest → c ≠ dot → has_slash uuid = false →
  is_ascii name = true →
  generateUniqueFilename uuid (VStr name) = Ok f →
  resolve sys dir = Some kd →
  has_slash f = false ∧ resolve sys (path_join dir f) = Some (kd ++ [f]).
Proof.
  intros -> Hc Hfree _ Hgen Hdir. unfold generateUniqueFilename in Hgen.
  injection Hgen as <-.
  destruct (path_extname_shape name) as [Hext _].
  set (ext := toLowerCase (path_extname name)).
  assert (has_slash (String c rest +:+ ext) = false) as Hf.
  { rewrite has_slash_app, Hfree. unfold ext. by rewrite has_slash_lower. }
  split; [done|].
  assert (split_path (String c rest +:+ ext) = [String c rest +:+ ext]) as Hsplit
    by (by apply split_path_plain).
  assert (plain (String c rest +:+ ext)) as Hplain.
  { rewrite string_app_cons. split_and!; [done| |]; intros [= -> _]; done. }
  pose proof (resolve_join_below sys dir kd (String c rest +:+ ext) Hdir) as Hkey.
  rewrite Hsplit in Hkey. apply Hkey; [done|]. by constructor.
Qed.

End GeneratedNames.

(** X2. Two generated names are equal only if the identifiers they were
    generated from are: with identifiers of one length, as [uuidv4] draws
    them, distinct identifiers give distinct names whatever the original
    names (ASCII strings) are. *)
Theorem generated_names_differ uuid1 uuid2 name1 name2 f1 f2 :
  String.length uuid1 = String.length uuid2 →
  is_ascii name1 = true → is_ascii name2 = true →
  generateUniqueFilename uuid1 (VStr name1) = Ok f1 →
  generateUniqueFilename uuid2 (VStr name2) = Ok f2 →
  f1 = f2 → uuid1 = uuid2.
Proof.
  intros Hlen _ _ Hgen1 Hgen2 Heq. unfold generateUniqueFilename in *.
  injection Hgen1 as <-. injection Hgen2 as <-.
  by destruct (string_app_same_length _ _ _ _ Hlen Heq).
Qed.

(** X3. The generated name does not depend on the letter case of the
    original name (an ASCII string): the extension is taken lower-cased, so
    a name and its lower-cased form give the same result; the result is the
    identifier followed by an extension that is in lower case and is empty
    or starts with a dot. *)
Theorem generated_name_ignores_case uuid name :
  is_ascii name = true →
  generateUniqueFilename uuid (VStr (toLowerCase name))
  = generateUniqueFilename uuid (VStr name)
  ∧ ∃ ext, generateUniqueFilename uuid (VStr name) = Ok (uuid +:+ ext)
           ∧ toLowerCase ext = ext
           ∧ (ext = "" ∨ ∃ e, ext = String dot e).
Proof.
  intros _. unfold generateUniqueFilename. split.
  - by rewrite path_extname_lower, toLowerCase_idemp.
  - exists (toLowerCase (path_extname name)). split_and!; [done| |].
    + apply toLowerCase_idemp.
    + destruct (path_extname_shape name) as [_ [->|[e ->]]]; [by left|].
      right. by eexists.
Qed.

(** ** What an operation leaves alone *)

Lemma grows_by_dirs_refl t : grows_by_dirs t t.
Proof. split; eauto. Qed.

Lemma grows_by_dirs_trans t1 t2 t3 :
  grows_by_dirs t1 t2 → grows_by_dirs t2 t3 → grows_by_dirs t1 t3.
Proof.
  intros [Hk1 Hn1] [Hk2 Hn2]. split; [by eauto|].
  intros k n [H|H]%Hn2; [|by right]. by apply Hn1.
Qed.

Lemma prefixes_nonempty k d : d ∈ prefixes k → d ≠ [].
Proof.
  destruct k as [|x k]; cbn; [by intros ?%elem_of_nil|].
  intros [->|(y & -> & _)%list_elem_of_fmap]%elem_of_cons; done.
Qed.

Section Frames.

Variable sys : host.

Lemma mkdir_run_grows rec p t r t' :
  mkdir_run sys rec p t = (r, t') → grows_by_dirs t t'.
Proof.
  destruct r as [u|e]; [|intros ->%mkdir_run_throw; apply grows_by_dirs_refl].
  unfold mkdir_run. destruct p as [| | | |s| |]; try done.
  destruct (resolve sys s) as [kp|]; [|done]. destruct rec.
  - destruct (existsb _ _) eqn:Hfiles; [done|]. intros [= _ <-].
    assert (∀ k, k ∈ prefixes kp → ∀ n, t !! k = Some n → n = Dir) as Hdirs.
    { intros k Hin n Hn. destruct n as [d|]; [|done].
      assert (existsb (is_file t) (prefixes kp) = true) as Hcontra; [|congruence].
      apply existsb_exists. exists k. split; [by apply list_elem_of_In|].
      unfold is_file. pose proof (prefixes_nonempty _ _ Hin).
      destruct k; [done|]. cbn. by rewrite Hn. }
    split; intros k n; rewrite lookup_mkdirp; case_decide as Hin.
    + intros Hn. by rewrite (Hdirs k Hin n Hn).
    + done.
    + intros [= <-]. by right.
    + by left.
  - destruct (lookup_node t kp) eqn:Hkp; [done|].
    destruct (lookup_node t (removelast kp)) as [[d|]|]; try done.
    intros [= _ <-].
    assert (t !! kp = None) as Hnone by (by destruct kp).
    split; intros k n; destruct (decide (kp = k)) as [->|Hne];
      rewrite ?lookup_insert_eq, ?lookup_insert_ne by done;
      try congruence; eauto.
    intros [= <-]. by right.
Qed.

Lemma mkdirSync_grows p rec w r w' :
  mkdirSync sys p rec w = (r, w') → grows_by_dirs (nodes w) (nodes w').
Proof.
  intros (_ & _ & [(e & _ & _ & ->)|[_ Hrun]])%syscall_inv.
  - apply grows_by_dirs_refl.
  - by eapply mkdir_run_grows.
Qed.


Lemma unlink_frame p w r w' k :
  unlink sys p w = (r, w') →
  (∀ s, p = VStr s → resolve sys s ≠ Some k) →
  nodes w' !! k = nodes w !! k.
Proof.
  intros Hrun Hout. destruct r as [u|e].
  - apply unlink_ok in Hrun as (_ & _ & s & kp & d & -> & Hkp & _ & ->).
    apply lookup_delete_ne. intros <-. by eapply Hout.
  - by apply unlink_throw in Hrun as (_ & _ & ->).
Qed.

Lemma unlink_shrinks p w r w' :
  unlink sys p w = (r, w') → shrinks (nodes w) (nodes w').
Proof.
  intros Hrun k n. destruct r as [u|e].
  - apply unlink_ok in Hrun as (_ & _ & s & kp & d & -> & Hkp & _ & ->).
    by intros [_ ?]%lookup_delete_Some.
  - by apply unlink_throw in Hrun as (_ & _ & ->).
Qed.

(** An unlink never removes a directory. *)
Lemma unlink_keeps_dirs p w r w' k :
  unlink sys p w = (r, w') → nodes w !! k = Some Dir → nodes w' !! k = Some Dir.
Proof.
  intros Hrun Hdir. destruct r as [u|e].
  - apply unlink_ok in Hrun as (_ & _ & s & kp & d & -> & Hkp & Hfile & ->).
    rewrite lookup_delete_ne; [done|]. intros <-.
    destruct kp; [done|]. cbn in Hfile. congruence.
  - by apply unlink_throw in Hrun as (_ & _ & ->).
Qed.

Lemma rmdir_frame s w r w' k :
  rmdir sys s w = (r, w') → resolve sys s ≠ Some k →
  nodes w' !! k = nodes w !! k.
Proof.
  intros Hrun Hout. destruct r as [u|e].
  - apply rmdir_ok in Hrun as (_ & _ & kd & Hkd & _ & _ & _ & ->).
    apply lookup_delete_ne. congruence.
  - by apply rmdir_throw in Hrun as (_ & _ & ->).
Qed.

Lemma readdir_nodes s w r w' :
  readdir sys s w = (r, w') → nodes w' = nodes w.
Proof.
  destruct r as [names|e].
  - by intros (_ & _ & ? & _)%readdir_ok.
  - by intros (_ & _ & ?)%readdir_throw.
Qed.

Lemma stat_nodes s w r w' : stat sys s w = (r, w') → nodes w' = nodes w.
Proof. by intros (_ & _ & ? & _)%stat_inv. Qed.

Lemma sharp_metadata_nodes input w r w' :
  sharp_metadata sys input w = (r, w') → nodes w' = nodes w.
Proof. by intros (_ & _ & ?)%sharp_metadata_inv. Qed.

Lemma sharp_metadata_ok input w im w' :
  sharp_metadata sys input w = (Ok im, w') →
  sharp_open sys input (nodes w) = Ok im.
Proof.
  intros (_ & _ & [(e & _ & [=] & _)|[_ Hrun]])%syscall_inv.
  unfold metadata_run in Hrun. by simplify_eq.
Qed.

(** An image write touches its output and nothing else. *)
Lemma sharp_toFile_frame input output wd ht q w r w' k :
  sharp_toFile sys input output wd ht q w = (r, w') →
  resolve sys output ≠ Some k →
  nodes w' !! k = nodes w !! k.
Proof.
  intros Hrun Hout. destruct r as [u|e].
  - apply sharp_toFile_ok in Hrun as (_ & _ & ko & im & Hko & _ & _ & _ & ->).
    apply lookup_insert_ne. congruence.
  - apply sharp_toFile_throw in Hrun as (_ & _ & [->|(ko & d & Hko & ->)]);
      [done|].
    apply lookup_insert_ne. congruence.
Qed.

(** What [sharp] opens is a regular file that decodes. *)
Lemma sharp_open_ok input t im :
  sharp_open sys input t = Ok im →
  ∃ s k d, input = VStr s ∧ resolve sys s = Some k ∧ k ≠ []
           ∧ t !! k = Some (File d) ∧ f_image d = Some im.
Proof.
  unfold sharp_open. destruct input as [| | | |s| |]; try done.
  destruct (resolve sys s) as [k|] eqn:Hk; [|done].
  destruct (lookup_node t k) as [[d|]|] eqn:Hlook; try done.
  destruct (f_image d) as [im'|] eqn:Him; [|done]. intros [= <-].
  exists s, k, d. split_and!; try done; destruct k; done.
Qed.

End Frames.

(** ** processImage, step by step *)

Section ProcessImageSteps.

Variable sys : host.

Lemma ensureDir_grows p w r w' :
  ensureDir sys p w = (r, w') → grows_by_dirs (nodes w) (nodes w').
Proof.
  unfold ensureDir. intros Hrun. unfold_monad Hrun.
  destruct (path_exists sys (nodes w) p); cbn [negb] in Hrun.
  - simplify_eq. apply grows_by_dirs_refl.
  - next_call Hrun; simplify_eq; by apply mkdirSync_grows in Hcall.
Qed.


Lemma processImage_entry_grows options w r w1 :
  processImage_entry sys options w = (r, w1) →
  grows_by_dirs (nodes w) (nodes w1).
Proof.
  unfold processImage_entry. intros Hrun. unfold_monad Hrun.
  destruct (negb (truthy (targetDir options)) || negb (truthy (baseName options))).
  { simplify_eq. apply grows_by_dirs_refl. }
  next_call Hrun.
  - apply ensureDir_grows in Hcall. world_simpl.
    destruct (targetDir options); by simplify_eq.
  - apply ensureDir_grows in Hcall. world_simpl. by simplify_eq.
Qed.


(** Every way the [try] block can go. *)
Lemma processImage_try_inv originalPath optimizedPath wd ht q w r w' :
  processImage_try sys originalPath optimizedPath wd ht q w = (r, w') →
  ∃ issued, ops w' = ops w ++ issued ∧
    ((∃ e, r = Throw e ∧ nodes w' = nodes w
           ∧ issued = [OpMetadata originalPath])
     ∨ (∃ e im, r = Throw e
          ∧ sharp_open sys originalPath (nodes w) = Ok im
          ∧ issued = [OpMetadata originalPath;
                      OpToFile originalPath optimizedPath wd ht q]
          ∧ (nodes w' = nodes w
             ∨ ∃ ko d, resolve sys optimizedPath = Some ko
                       ∧ nodes w' = <[ko := File d]> (nodes w)))
     ∨ (∃ im ko,
          sharp_open sys originalPath (nodes w) = Ok im
          ∧ resolve sys optimizedPath = Some ko ∧ ko ≠ []
          ∧ (∀ s, originalPath = VStr s → resolve sys s ≠ Some ko)
          ∧ ((path_exists sys
                (<[ko := File (webp_encode sys im wd ht q)]> (nodes w))
                originalPath = false
              ∧ nodes w' = <[ko := File (webp_encode sys im wd ht q)]> (nodes w)
              ∧ issued = [OpMetadata originalPath;
                          OpToFile originalPath optimizedPath wd ht q;
                          OpExists originalPath; OpStat optimizedPath]
              ∧ (r = Ok (result_for optimizedPath im
                           (f_size (webp_encode sys im wd ht q)))
                 ∨ ∃ e, r = Throw e))
             ∨ (∃ e, r = Throw e
                  ∧ nodes w'
                    = <[ko := File (webp_encode sys im wd ht q)]> (nodes w)
                  ∧ issued = [OpMetadata originalPath;
                              OpToFile originalPath optimizedPath wd ht q;
                              OpExists originalPath; OpUnlink originalPath])
             ∨ (∃ s ki d,
                  originalPath = VStr s ∧ resolve sys s = Some ki
                  ∧ nodes w !! ki = Some (File d)
                  ∧ nodes w'
                    = delete ki
                        (<[ko := File (webp_encode sys im wd ht q)]> (nodes w))
                  ∧ issued = [OpMetadata originalPath;
                              OpToFile originalPath optimizedPath wd ht q;
                              OpExists originalPath; OpUnlink originalPath;
                              OpStat optimizedPath]
                  ∧ (r = Ok (result_for optimizedPath im
                               (f_size (webp_encode sys im wd ht q)))
                     ∨ ∃ e, r = Throw e))))).
Proof.
  unfold processImage_try. intros Hrun. unfold_monad Hrun.
  destruct (sharp_metadata sys originalPath _) as [[im|e] w1] eqn:Hmeta.
  2:{ apply sharp_metadata_inv in Hmeta as (Ho & _ & Hn). world_simpl.
      simplify_eq. world_simpl. exists [OpMetadata originalPath].
      split; [done|]. left. eauto. }
  pose proof (sharp_metadata_ok _ _ _ _ _ Hmeta) as Him.
  apply sharp_metadata_inv in Hmeta as (Ho1 & _ & Hn1). world_simpl.
  destruct (sharp_toFile sys originalPath optimizedPath wd ht q _)
    as [[u|e] w2] eqn:Hwrite.
  2:{ apply sharp_toFile_throw in Hwrite as (Ho2 & _ & Hn2). world_simpl.
      simplify_eq. world_simpl.
      exists [OpMetadata originalPath; OpToFile originalPath optimizedPath wd ht q].
      rewrite Ho2, Ho1, <- app_assoc. split; [done|]. right. left.
      exists e, im. rewrite Hn1 in Hn2. split_and!; try done. }
  apply sharp_toFile_ok in Hwrite
    as (Ho2 & _ & ko & im' & Hko & Hknil & Hdiff & Him' & Hn2).
  world_simpl. rewrite Hn1 in Him', Hn2. assert (im' = im) as -> by congruence.
  set (t1 := <[ko := File (webp_encode sys im wd ht q)]> (nodes w)) in *.
  assert (lookup_node t1 ko = Some (File (webp_encode sys im wd ht q))) as Hout
    by (by apply lookup_node_insert_same).
  destruct (path_exists sys (nodes w2) originalPath) eqn:Hex.
  - destruct (unlink sys originalPath _) as [[[]|e] w3] eqn:Hun.
    + apply unlink_ok in Hun as (Ho3 & _ & s & ki & d & -> & Hki & Hfile & Hn3).
      world_simpl. rewrite Hn2 in Hfile, Hn3.
      assert (ki ≠ ko) as Hne by (intros ->; by eapply Hdiff).
      assert (nodes w !! ki = Some (File d)) as Horig.
      { destruct ki; [done|]. cbn in Hfile. unfold t1 in Hfile.
        by rewrite lookup_insert_ne in Hfile. }
      destruct (stat sys optimizedPath w3) as [rs w4] eqn:Hstat.
      apply stat_inv in Hstat as (Ho4 & _ & Hn4 & Hnode).
      exists [OpMetadata (VStr s); OpToFile (VStr s) optimizedPath wd ht q;
              OpExists (VStr s); OpUnlink (VStr s); OpStat optimizedPath].
      assert (ops w4 = ops w ++ [OpMetadata (VStr s);
                                 OpToFile (VStr s) optimizedPath wd ht q;
                                 OpExists (VStr s); OpUnlink (VStr s);
                                 OpStat optimizedPath]) as Hops
        by (rewrite Ho4, Ho3, Ho2, Ho1, <- !app_assoc; done).
      assert (nodes w4 = delete ki t1) as Hnodes by congruence.
      destruct rs as [n|e]; simplify_eq; world_simpl.
      * split; [done|]. right. right. exists im, ko. split_and!; try done.
        right. right. exists s, ki, d. split_and!; try done. left.
        destruct (Hnode n eq_refl) as (ko' & Hko' & Hlook).
        assert (ko' = ko) as -> by congruence.
        rewrite Hn3 in Hlook. destruct ko as [|x ko]; [done|]. cbn in Hlook.
        rewrite lookup_delete_ne in Hlook by done. cbn in Hout.
        rewrite Hout in Hlook. by simplify_eq.
      * split; [done|]. right. right. exists im, ko. split_and!; try done.
        right. right. exists s, ki, d. split_and!; eauto.
    + apply unlink_throw in Hun as (Ho3 & _ & Hn3). world_simpl.
      simplify_eq. world_simpl.
      exists [OpMetadata originalPath; OpToFile originalPath optimizedPath wd ht q;
              OpExists originalPath; OpUnlink originalPath].
      rewrite Ho3, Ho2, Ho1, <- !app_assoc. split; [done|]. right. right.
      exists im, ko. split_and!; try done. right. left. exists e.
      split_and!; [done| |done]. congruence.
  - destruct (stat sys optimizedPath _) as [rs w4] eqn:Hstat.
    apply stat_inv in Hstat as (Ho4 & _ & Hn4 & Hnode). world_simpl.
    exists [OpMetadata originalPath; OpToFile originalPath optimizedPath wd ht q;
            OpExists originalPath; OpStat optimizedPath].
    assert (ops w4 = ops w ++ [OpMetadata originalPath;
                               OpToFile originalPath optimizedPath wd ht q;
                               OpExists originalPath; OpStat optimizedPath])
      as Hops by (rewrite Ho4, Ho2, Ho1, <- !app_assoc; done).
    rewrite Hn2 in Hex, Hn4.
    destruct rs as [n|e]; simplify_eq; world_simpl.
    + split; [done|]. right. right. exists im, ko. split_and!; try done.
      left. split_and!; try done. left.
      destruct (Hnode n eq_refl) as (ko' & Hko' & Hlook).
      assert (ko' = ko) as -> by congruence.
      rewrite Hn2, Hout in Hlook. by simplify_eq.
    + split; [done|]. right. right. exists im, ko. split_and!; try done.
      left. split_and!; eauto.
Qed.




(** X4. A call of [processImage] that returns describes the original, not
    the output, in the width, height and original format it reports: they
    are those of the image stored at [inputPath] before the call; the format
    is [webp] and the size is that of the file the call wrote. *)
Theorem processImage_reports_original_dimensions options w result w' :
  processImage sys options w = (Ok result, w') →
  ∃ s k d im ko,
    inputPath options = VStr s ∧ resolve sys s = Some k ∧
    nodes w !! k = Some (File d) ∧ f_image d = Some im ∧
    md_width (metadata result) = img_width im ∧
    md_height (metadata result) = img_height im ∧
    md_originalFormat (metadata result) = img_format im ∧
    md_format (metadata result) = "webp" ∧
    resolve sys (processedPath result) = Some ko ∧
    ∃ written, nodes w' !! ko = Some (File written)
               ∧ md_size (metadata result) = f_size written
               ∧ written
                 = webp_encode sys im (default 2000%Z (width options))
                     (default 2000%Z (height options))
                     (default 85%Z (quality options)).
Proof.
  rewrite processImage_unfold. unfold bind at 1, try_catch.
  destruct (processImage_entry sys options w) as [[opt|e] w1] eqn:Hentry;
    [|done].
  destruct (processImage_try sys _ _ _ _ _ _) as [[r|e] w2] eqn:Htry.
  2:{ by intros [e' [=]]%processImage_catch_throws. }
  intros [= -> ->].
  apply processImage_entry_grows in Hentry as [_ Hback].
  apply processImage_try_inv in Htry as (issued & _ & Hcases).
  destruct Hcases as [(e & [=] & _)|[(e & im & [=] & _)
                     |(im & ko & Him & Hko & Hknil & Hdiff & Hcases)]].
  apply sharp_open_ok in Him as (s & k & d & Hs & Hk & Hnil & Hfile & Himg).
  destruct (Hback _ _ Hfile) as [Horig|[=]].
  assert (k ≠ ko) as Hne by (intros ->; by eapply Hdiff).
  assert (∀ t : tree, (<[ko := File (webp_encode sys im
                                      (default 2000%Z (width options))
                                      (default 2000%Z (height options))
                                      (default 85%Z (quality options)))]> t)
                      !! ko
                      = Some (File (webp_encode sys im
                                      (default 2000%Z (width options))
                                      (default 2000%Z (height options))
                                      (default 85%Z (quality options)))))
    as Hout by (intros t; apply lookup_insert_eq).
  destruct Hcases
    as [(_ & Hn & _ & [[= ->]|[e [=]]])
       |[(e & [=] & _)|(s' & ki & d' & Hs' & Hki & _ & Hn & _ & [[= ->]|[e [=]]])]];
    exists s, k, d, im, ko; (split_and!; try done); eexists;
    (split_and!; [|done|done]); rewrite Hn.
  - apply Hout.
  - rewrite lookup_delete_ne; [apply Hout|].
    rewrite Hs in Hs'. injection Hs' as <-. congruence.
Qed.



Lemma webp_name_plain (name : string) :
  has_slash name = false →
  name +:+ ".webp" ≠ "" ∧ plain (name +:+ ".webp")
  ∧ split_path (name +:+ ".webp") = [name +:+ ".webp"].
Proof.
  intros Hfree.
  assert (name +:+ ".webp" ≠ "") as Hne by (by apply string_app_nonempty_r).
  split; [done|]. split.
  - split_and!; [done| |].
    + destruct name as [|c [|c' name]]; done.
    + destruct name as [|c [|c' [|c'' name]]]; done.
  - apply split_path_plain. by rewrite has_slash_app, Hfree.
Qed.

(** X7. When the base name has no slash, a call of [processImage] that
    returns has written its output directly inside [targetDir]: the entry
    [<baseName>.webp] of that directory, which is a regular file when the
    call returns. *)
Theorem processImage_output_inside_targetDir options w result w' :
  processImage sys options w = (Ok result, w') →
  has_slash (js_to_string (baseName options)) = false →
  ∃ dir kt written,
    targetDir options = VStr dir ∧ resolve sys dir = Some kt ∧
    resolve sys (processedPath result)
    = Some (kt ++ [js_to_string (baseName options) +:+ ".webp"]) ∧
    nodes w' !! (kt ++ [js_to_string (baseName options) +:+ ".webp"])
    = Some (File written).
Proof.
  rewrite processImage_unfold. unfold bind at 1, try_catch.
  intros Hrun Hfree.
  destruct (processImage_entry sys options w) as [[opt|e] w1] eqn:Hentry;
    [|done].
  destruct (processImage_try sys _ _ _ _ _ _) as [[r|e] w2] eqn:Htry.
  2:{ by apply processImage_catch_throws in Hrun as [e' [=]]. }
  simplify_eq.
  apply processImage_entry_ok in Hentry
    as (Htruthy & _ & (dir & Hdir & Hopt) & _).
  apply processImage_try_ok in Htry as (Hpath & (ko & d & Hko & Hlook & _) & _).
  destruct (webp_name_plain _ Hfree) as (Hne & Hplain & Hsplit).
  assert (∃ kt, resolve sys dir = Some kt) as [kt Hkt].
  { rewrite Hdir in Htruthy. cbn in Htruthy. unfold resolve.
    apply negb_true_iff in Htruthy. rewrite Htruthy. eauto. }
  pose proof (resolve_join_below sys dir kt _ Hkt Hne) as Hkey.
  rewrite Hsplit in Hkey. specialize (Hkey ltac:(by constructor)).
  exists dir, kt, d. rewrite Hpath, Hopt. split_and!; try done.
  rewrite Hopt, Hkey in Hko. injection Hko as <-.
  destruct kt; exact Hlook.
Qed.

(** X8. Asked to process a file that is its own output (the output path
    names the original), [processImage] never succeeds, and its cleanup
    removes that file: the call throws and the original is gone, unless the
    cleanup's unlink was itself refused by the environment. *)
Theorem processImage_on_its_own_output options w opt w1 s k d :
  processImage_entry sys options w = (Ok opt, w1) →
  inputPath options = VStr s → resolve sys s = Some k →
  resolve sys opt = Some k →
  lookup_node (nodes w) k = Some (File d) →
  ∃ e w',
    processImage sys options w = (Throw e, w') ∧
    (nodes w' !! k = None
     ∨ ∃ wu, fault sys wu (OpUnlink (VStr opt)) = Some e).
Proof.
  intros Hentry Hs Hk Hopt Hfile.
  rewrite processImage_unfold. unfold bind at 1, try_catch. rewrite Hentry.
  apply processImage_entry_grows in Hentry as [Hkeep _].
  assert (k ≠ []) as Hknil by (intros ->; done).
  assert (nodes w !! k = Some (File d)) as Hfile' by (by destruct k).
  specialize (Hkeep _ _ Hfile').
  destruct (processImage_try sys _ _ _ _ _ _) as [r2 w2] eqn:Htry.
  apply processImage_try_inv in Htry as (issued & _ & Hcases).
  assert (∃ e0 f, r2 = Throw e0 ∧ nodes w2 !! k = Some (File f))
    as (e0 & f & -> & Hstill).
  { destruct Hcases
      as [(e & -> & -> & _)
         |[(e & im & -> & _ & _ & [->|(ko & d' & Hko & ->)])
          |(im & ko & _ & Hko & _ & Hdiff & _)]]; eauto.
    - assert (ko = k) as -> by congruence. rewrite lookup_insert_eq. eauto.
    - destruct (Hdiff s Hs). congruence. }
  destruct (processImage_catch sys _ _ _ _) as [r w'] eqn:Hcatch.
  apply processImage_catch_inv in Hcatch
    as [[-> Hgone]|(e & wu & -> & Hwu & Hun & Hn & _)].
  - exists e0, w'. split; [done|]. left.
    cbn in Hgone. rewrite Hopt in Hgone.
    destruct k as [|x k]; [done|]. cbn in Hgone.
    by destruct (nodes w' !! (x :: k)).
  - exists e, w'. split; [done|]. right.
    apply syscall_inv in Hun as (_ & _ & [(e' & Hf & [= <-] & _)|[_ Hrun]]);
      [by eauto|].
    unfold unlink_run in Hrun. rewrite Hopt in Hrun.
    destruct k as [|x k]; [done|]. cbn in Hrun.
    rewrite Hwu, Hstill in Hrun. done.
Qed.

End ProcessImageSteps.

(** ** Provisioning, entry by entry *)

Section ProvisioningSteps.

Variable sys : host.
Variable TEMP_PHOTOS_DIR : string.

Lemma ensure_one_grows silent rec dir stats w r w' :
  ensure_one sys silent rec dir stats w = (r, w') →
  grows_by_dirs (nodes w) (nodes w').
Proof.
  unfold ensure_one. intros Hrun.
  destruct (path_exists sys (nodes w) dir) eqn:Hex.
  - destruct silent; unfold_monad Hrun; rewrite Hex in Hrun;
      cbv [negb] in Hrun; simplify_eq; apply grows_by_dirs_refl.
  - destruct (mkdirSync sys dir rec (record_op (OpExists dir) w))
      as [[u|e] w0] eqn:Hcall;
      pose proof (mkdirSync_grows _ _ _ _ _ _ Hcall) as Hgrows; world_simpl;
      destruct silent; unfold_monad Hrun; rewrite Hex in Hrun;
      cbv [negb] in Hrun; rewrite Hcall in Hrun; by simplify_eq.
Qed.

Lemma ensure_loop_grows silent rec dirs stats w r w' :
  ensure_loop sys silent rec dirs stats w = (r, w') →
  grows_by_dirs (nodes w) (nodes w').
Proof.
  revert stats w. induction dirs as [|dir dirs IH]; intros stats w Hrun.
  - cbn in Hrun. unfold ret in Hrun. simplify_eq. apply grows_by_dirs_refl.
  - cbn [ensure_loop] in Hrun. unfold bind in Hrun.
    destruct (ensure_one sys _ _ _ _ _) as [r1 w1] eqn:Hone.
    pose proof (ensure_one_grows _ _ _ _ _ _ _ Hone) as Hfirst.
    apply ensure_one_inv in Hone as (st1 & -> & _).
    eapply grows_by_dirs_trans; [exact Hfirst|]. by eapply IH.
Qed.

(** X9. Directory provisioning only ever adds directories: after
    [ensureDirectoriesExist], [ensureDir] or [getUploadDir], however they
    end, every entry that was there is still there unchanged, and every
    entry that is new is a directory. *)
Theorem provisioning_only_adds_directories :
  (∀ directories options w,
      grows_by_dirs (nodes w)
        (nodes (state_after (ensureDirectoriesExist sys directories options) w)))
  ∧ (∀ dirPath w,
        grows_by_dirs (nodes w) (nodes (state_after (ensureDir sys dirPath) w)))
  ∧ (∀ userId memoryId w,
        grows_by_dirs (nodes w)
          (nodes (state_after
                    (getUploadDir sys TEMP_PHOTOS_DIR userId memoryId) w))).
Proof.
  split_and!.
  - intros directories options w. unfold state_after.
    rewrite ensureDirectoriesExist_unfold. cbn zeta.
    destruct (ensure_loop sys _ _ _ _ _) as [r w1] eqn:Hloop.
    apply ensure_loop_grows in Hloop.
    destruct (default false (silent options)), r; exact Hloop.
  - intros dirPath w. unfold state_after.
    destruct (ensureDir sys dirPath w) as [r w'] eqn:Hrun.
    by eapply ensureDir_grows.
  - intros userId memoryId w. unfold state_after, getUploadDir.
    destruct (ensureDir sys _ w) as [r w'] eqn:Hrun.
    by eapply ensureDir_grows.
Qed.

Lemma user_segment_plain (prefix id : string) c rest :
  prefix = String c rest → c ≠ dot → has_slash prefix = false →
  has_slash id = false →
  prefix +:+ id ≠ "" ∧ Forall plain (split_path (prefix +:+ id))
  ∧ split_path (prefix +:+ id) = [prefix +:+ id].
Proof.
  intros -> Hc Hprefix Hid.
  assert (has_slash (String c rest +:+ id) = false) as Hfree
    by (by rewrite has_slash_app, Hprefix, Hid).
  rewrite (split_path_plain _ Hfree). split_and!; [done| |done].
  constructor; [|constructor]. rewrite string_app_cons.
  split_and!; [done| |]; intros [= -> _]; done.
Qed.

Lemma getUploadDir_key userId memoryId w v w' kb :
  resolve sys
    match env_UPLOAD_DIR sys with
    | Some s => if String.eqb s "" then TEMP_PHOTOS_DIR else s
    | None => TEMP_PHOTOS_DIR
    end = Some kb →
  has_slash (js_to_string userId) = false →
  has_slash (js_to_string memoryId) = false →
  getUploadDir sys TEMP_PHOTOS_DIR userId memoryId w = (Ok v, w') →
  ∃ s, v = VStr s
       ∧ resolve sys s
         = Some (kb ++ ["user_" +:+ js_to_string userId;
                        "memory_" +:+ js_to_string memoryId])
       ∧ path_exists sys (nodes w') (VStr s) = true.
Proof.
  intros Hbase Huser Hmemory Hrun. unfold getUploadDir in Hrun.
  cbn [truthy] in Hrun.
  set (base := match env_UPLOAD_DIR sys with
               | Some s => if String.eqb s "" then TEMP_PHOTOS_DIR else s
               | None => TEMP_PHOTOS_DIR
               end) in *.
  assert (match env_UPLOAD_DIR sys with
          | Some s => if negb (String.eqb s "") then s else TEMP_PHOTOS_DIR
          | None => TEMP_PHOTOS_DIR
          end = base) as Heq.
  { unfold base. destruct (env_UPLOAD_DIR sys) as [s|]; [|done].
    by destruct (String.eqb s ""). }
  rewrite Heq in Hrun.
  destruct (user_segment_plain "user_" (js_to_string userId) _ _ eq_refl)
    as (Hne1 & Hplain1 & Hsplit1); [done..|].
  destruct (user_segment_plain "memory_" (js_to_string memoryId) _ _ eq_refl)
    as (Hne2 & Hplain2 & Hsplit2); [done..|].
  pose proof (resolve_join_below sys _ _ _ Hbase Hne1 Hplain1) as Hk1.
  pose proof (resolve_join_below sys _ _ _ Hk1 Hne2 Hplain2) as Hk2.
  rewrite Hsplit1, Hsplit2, <- app_assoc in Hk2. cbn [app] in Hk2.
  apply ensureDir_inv in Hrun as [_ Hcases].
  assert (v = VStr (path_join (path_join base ("user_" +:+ js_to_string userId))
                      ("memory_" +:+ js_to_string memoryId))
          ∧ path_exists sys (nodes w')
              (VStr (path_join (path_join base ("user_" +:+ js_to_string userId))
                       ("memory_" +:+ js_to_string memoryId))) = true)
    as [-> Hex].
  { destruct Hcases as [(? & [= ->] & Hn & _)
                       |(_ & _ & [([= ->] & ? & _)|(? & [=] & _)])];
      [by rewrite Hn|done]. }
  eexists. split; [done|]. split; [exact Hk2|exact Hex].
Qed.

(** X10. For identifiers whose text has no slash, the directory
    [getUploadDir] returns is exactly two levels below the base directory:
    the entry [user_<userId>/memory_<memoryId>] of the base, and it exists
    when the call returns. *)
Theorem getUploadDir_two_levels_below_base userId memoryId w v w' kb :
  resolve sys
    match env_UPLOAD_DIR sys with
    | Some s => if String.eqb s "" then TEMP_PHOTOS_DIR else s
    | None => TEMP_PHOTOS_DIR
    end = Some kb →
  has_slash (js_to_string userId) = false →
  has_slash (js_to_string memoryId) = false →
  getUploadDir sys TEMP_PHOTOS_DIR userId memoryId w = (Ok v, w') →
  ∃ s, v = VStr s
       ∧ resolve sys s
         = Some (kb ++ ["user_" +:+ js_to_string userId;
                        "memory_" +:+ js_to_string memoryId])
       ∧ is_Some (nodes w' !! (kb ++ ["user_" +:+ js_to_string userId;
                                       "memory_" +:+ js_to_string memoryId])).
Proof.
  intros Hbase Huser Hmemory Hrun.
  destruct (getUploadDir_key _ _ _ _ _ _ Hbase Huser Hmemory Hrun)
    as (s & -> & Hkey & Hex).
  exists s. split; [done|]. split; [exact Hkey|].
  cbn in Hex. rewrite Hkey in Hex.
  destruct (kb ++ ["user_" +:+ js_to_string userId;
                   "memory_" +:+ js_to_string memoryId])
    as [|x key] eqn:Hk.
  { by apply app_eq_nil in Hk as [_ ?]. }
  cbn in Hex. by destruct (nodes w' !! (x :: key)).
Qed.

(** X11. Distinct identifiers get distinct upload directories: when two
    calls of [getUploadDir], on identifiers without slashes, return paths
    that name the same entry, the user identifiers have the same text and so
    have the memory identifiers. *)
Theorem getUploadDir_separates userId memoryId userId' memoryId'
    w1 s1 w1' w2 s2 w2' kb :
  resolve sys
    match env_UPLOAD_DIR sys with
    | Some s => if String.eqb s "" then TEMP_PHOTOS_DIR else s
    | None => TEMP_PHOTOS_DIR
    end = Some kb →
  has_slash (js_to_string userId) = false →
  has_slash (js_to_string memoryId) = false →
  has_slash (js_to_string userId') = false →
  has_slash (js_to_string memoryId') = false →
  getUploadDir sys TEMP_PHOTOS_DIR userId memoryId w1 = (Ok (VStr s1), w1') →
  getUploadDir sys TEMP_PHOTOS_DIR userId' memoryId' w2 = (Ok (VStr s2), w2') →
  resolve sys s1 = resolve sys s2 →
  js_to_string userId = js_to_string userId'
  ∧ js_to_string memoryId = js_to_string memoryId'.
Proof.
  intros Hbase Hu Hm Hu' Hm' Hrun1 Hrun2 Hsame.
  destruct (getUploadDir_key _ _ _ _ _ _ Hbase Hu Hm Hrun1)
    as (s & [= <-] & Hk1 & _).
  destruct (getUploadDir_key _ _ _ _ _ _ Hbase Hu' Hm' Hrun2)
    as (s' & [= <-] & Hk2 & _).
  rewrite Hk1, Hk2 in Hsame. injection Hsame as Hsame.
  apply app_inv_head in Hsame. injection Hsame as Huser Hmemory.
  split; by eapply String.app_inj.
Qed.

Lemma ensure_loop_keeps_paths silent rec dirs stats w r w' q :
  ensure_loop sys silent rec dirs stats w = (r, w') →
  path_exists sys (nodes w) q = true → path_exists sys (nodes w') q = true.
Proof.
  revert stats w. induction dirs as [|dir dirs IH]; intros stats w Hrun Hq.
  - cbn in Hrun. unfold ret in Hrun. by simplify_eq.
  - cbn [ensure_loop] in Hrun. unfold bind in Hrun.
    destruct (ensure_one sys _ _ _ _ _) as [r1 w1] eqn:Hone.
    apply ensure_one_inv in Hone as (st1 & -> & Hcases).
    eapply IH; [exact Hrun|].
    destruct Hcases as [(_ & _ & -> & _)|[(_ & _ & _ & Hmono & _)
                       |(_ & _ & -> & _)]]; auto.
Qed.

Lemma ensure_loop_all_present silent rec dirs stats w stats' w' :
  ensure_loop sys silent rec dirs stats w = (Ok stats', w') →
  failed stats' = failed stats →
  Forall (λ dir, path_exists sys (nodes w') dir = true) dirs.
Proof.
  revert stats w. induction dirs as [|dir dirs IH]; intros stats w Hrun Hfailed.
  { constructor. }
  cbn [ensure_loop] in Hrun. unfold bind in Hrun.
  destruct (ensure_one sys _ _ _ _ _) as [r1 w1] eqn:Hone.
  apply ensure_one_inv in Hone as (st1 & -> & Hcases).
  pose proof (ensure_loop_counts _ _ _ _ _ _ _ _ Hrun) as (_ & _ & Hle & _).
  assert (failed st1 = failed stats
          ∧ path_exists sys (nodes w1) dir = true) as [Hsame Hdir].
  { destruct Hcases as [(Hex & -> & Hn & _)|[(_ & -> & Hnew & _)
                       |(_ & -> & _)]]; cbn in *;
      [by rewrite Hn|done|lia]. }
  constructor.
  - by eapply ensure_loop_keeps_paths.
  - eapply IH; [exact Hrun|congruence].
Qed.

(** X17. When [ensureDirectoriesExist] reports no failure, every path it
    was given exists when it returns (as [fs.existsSync] sees it: a regular
    file already at a path counts as existing). *)
Theorem ensureDirectoriesExist_no_failure_all_present
    directories options w stats w' :
  ensureDirectoriesExist sys directories options w = (Ok stats, w') →
  failed stats = 0%nat →
  Forall (λ dir, path_exists sys (nodes w') dir = true) directories.
Proof.
  rewrite ensureDirectoriesExist_unfold. cbn zeta. intros Hrun Hfailed.
  destruct (ensure_loop sys _ _ _ _ _) as [[st|e] w1] eqn:Hloop.
  2:{ destruct (ensure_loop_total sys (default false (silent options))
                  (default true (recursive options)) directories
                  {| created := 0; existing := 0; failed := 0 |}
                  (if default false (silent options) then w
                   else print (LogInfo "Ensuring required directories exist...")
                          w))
        as (st' & w2 & Htotal).
      congruence. }
  apply ensure_loop_all_present in Hloop.
  - destruct (default false (silent options)); by simplify_eq.
  - destruct (default false (silent options)); by simplify_eq.
Qed.

End ProvisioningSteps.

(** ** Deleting, entry by entry *)

Section DeleteSteps.

Variable sys : host.



Lemma deleteFiles_one_effect file w r w' :
  deleteFiles_one sys file w = (r, w') →
  shrinks (nodes w) (nodes w')
  ∧ (∀ k, nodes w !! k = Some Dir → nodes w' !! k = Some Dir)
  ∧ (∀ k, (∀ s, file = VStr s → resolve sys s ≠ Some k) →
          nodes w' !! k = nodes w !! k).
Proof.
  intros (_ & [[_ ->]|[(_ & _ & ->)|(_ & _ & Hun)]])%deleteFiles_one_inv;
    [by split_and!; [intros k n| |]..|].
  assert (∃ ru wu, unlink sys file (record_op (OpExists file) w) = (ru, wu)
                   ∧ nodes w' = nodes wu) as (ru & wu & Hrun & ->).
  { destruct Hun as [Hun|(e & wu & Hun & ->)]; eauto. }
  split_and!.
  - by apply unlink_shrinks in Hrun.
  - intros k Hdir. by apply (unlink_keeps_dirs _ _ _ _ _ k Hrun).
  - intros k Hout. by apply (unlink_frame _ _ _ _ _ k Hrun).
Qed.

Lemma deleteFiles_loop_effect files w r w' :
  deleteFiles_loop sys files w = (r, w') →
  shrinks (nodes w) (nodes w')
  ∧ (∀ k, nodes w !! k = Some Dir → nodes w' !! k = Some Dir)
  ∧ (∀ k, (∀ s, VStr s ∈ files → resolve sys s ≠ Some k) →
          nodes w' !! k = nodes w !! k).
Proof.
  revert w. induction files as [|file files IH]; intros w Hrun.
  - cbn in Hrun. unfold ret in Hrun. simplify_eq. by split_and!; [intros k n| |].
  - cbn [deleteFiles_loop] in Hrun. unfold bind in Hrun.
    destruct (deleteFiles_one sys file w) as [r1 w1] eqn:Hone.
    pose proof (deleteFiles_one_effect _ _ _ _ Hone) as (Hsub1 & Hdir1 & Hout1).
    apply deleteFiles_one_inv in Hone as [-> _].
    apply IH in Hrun as (Hsub & Hdir & Hout). split_and!.
    + intros k n Hn. by apply Hsub1, Hsub.
    + intros k Hk. by apply Hdir, Hdir1.
    + intros k Hk. rewrite Hout, Hout1; [done| |].
      * intros s ->. apply Hk. by left.
      * intros s Hs. apply Hk. by right.
Qed.

(** X12. [deleteFiles] touches nothing but the files it is given: it
    creates and alters no entry, it never removes a directory, and an entry
    that none of the given strings names is left exactly as it was. *)
Theorem deleteFiles_only_removes_named_files files w k :
  let named := match files with VArr l => l | _ => [files] end in
  let w' := state_after (deleteFiles sys files) w in
  (∀ n, nodes w' !! k = Some n → nodes w !! k = Some n)
  ∧ (nodes w !! k = Some Dir → nodes w' !! k = Some Dir)
  ∧ ((∀ s, VStr s ∈ named → resolve sys s ≠ Some k) →
     nodes w' !! k = nodes w !! k).
Proof.
  intros named w'. subst w'. unfold state_after, deleteFiles. fold named.
  destruct (deleteFiles_loop sys named w) as [r w'] eqn:Hrun.
  apply deleteFiles_loop_effect in Hrun as (Hsub & Hdir & Hout).
  split_and!; [intros n; apply Hsub|apply Hdir|apply Hout].
Qed.




(** X14. [deleteFileAndEmptyParent] creates and alters nothing, and what
    it can remove is the given file and its parent directory: every entry
    that neither the path nor [path.dirname] of it names is left exactly as
    it was. *)
Theorem deleteFileAndEmptyParent_footprint filePath w r w' k :
  deleteFileAndEmptyParent sys filePath w = (r, w') →
  (∀ n, nodes w' !! k = Some n → nodes w !! k = Some n)
  ∧ ((∀ s, filePath = VStr s →
           resolve sys s ≠ Some k ∧ resolve sys (path_dirname s) ≠ Some k) →
     nodes w' !! k = nodes w !! k).
Proof.
  intros (issued & _ & Hcases)%deleteFileAndEmptyParent_inv.
  destruct Hcases as [[-> _]|[(s & kf & f & -> & Hk & _ & -> & _)
                     |(s & kf & f & kd & -> & Hk & _ & Hkd & _ & _
                       & [->|[_ ->]])]].
  - done.
  - split.
    + by intros n [_ ?]%lookup_delete_Some.
    + intros Hout. destruct (Hout s eq_refl) as [Hne _].
      apply lookup_delete_ne. congruence.
  - split.
    + by intros n [_ ?]%lookup_delete_Some.
    + intros Hout. destruct (Hout s eq_refl) as [Hne _].
      apply lookup_delete_ne. congruence.
  - split.
    + by intros n [_ [_ ?]%lookup_delete_Some]%lookup_delete_Some.
    + intros Hout. destruct (Hout s eq_refl) as [Hne Hned].
      rewrite !lookup_delete_ne; [done|congruence..].
Qed.


(** X16. A deleting function given nothing to delete does nothing at all:
    for [null], [undefined], the empty string or any value that is not a
    string (and for [deleteFiles], a list of such values) no file-system
    call is issued and nothing is printed; [deleteFile] answers [false]. *)
Theorem deleting_nothing_is_silent files filePath w :
  Forall (λ file, truthy file && is_string file = false)
    match files with VArr l => l | _ => [files] end →
  truthy filePath && is_string filePath = false →
  deleteFiles sys files w = (Ok tt, w)
  ∧ deleteFile sys filePath w = (Ok false, w)
  ∧ deleteFileAndEmptyParent sys filePath w = (Ok tt, w).
Proof.
  intros Hall Hg. split_and!.
  - unfold deleteFiles. induction Hall as [|file rest Hfile _ IH]; [done|].
    cbn [deleteFiles_loop]. unfold bind, deleteFiles_one. by rewrite Hfile.
  - unfold deleteFile. by rewrite Hg.
  - unfold deleteFileAndEmptyParent. by rewrite Hg.
Qed.

End DeleteSteps.

(** ** The further properties at work on the sample states *)

Lemma generated_name_stays_in_directory_witness :
  generateUniqueFilename sample_uuid (VStr "Holiday.JPG")
  = Ok "3f2a9c1e-7b44-4d0a-9c3e-5a1b2c3d4e5f.jpg"
  ∧ has_slash "3f2a9c1e-7b44-4d0a-9c3e-5a1b2c3d4e5f.jpg" = false
  ∧ resolve sample_host
      (path_join "/srv/out" "3f2a9c1e-7b44-4d0a-9c3e-5a1b2c3d4e5f.jpg")
    = Some (["srv"; "out"] ++ ["3f2a9c1e-7b44-4d0a-9c3e-5a1b2c3d4e5f.jpg"]).
Proof.
  split; [by_running|].
  apply (generated_name_stays_in_directory sample_host "/srv/out"
           ["srv"; "out"] sample_uuid "3"%char
           "f2a9c1e-7b44-4d0a-9c3e-5a1b2c3d4e5f" "Holiday.JPG"
           "3f2a9c1e-7b44-4d0a-9c3e-5a1b2c3d4e5f.jpg");
    [reflexivity|discriminate|by_running..].
Defined.

Lemma generated_names_differ_witness :
  String.length sample_uuid = String.length sample_uuid
  ∧ generateUniqueFilename sample_uuid (VStr "a.png")
    = Ok "3f2a9c1e-7b44-4d0a-9c3e-5a1b2c3d4e5f.png"
  ∧ generateUniqueFilename sample_uuid (VStr "/tmp/b.PNG")
    = Ok "3f2a9c1e-7b44-4d0a-9c3e-5a1b2c3d4e5f.png"
  ∧ sample_uuid = sample_uuid.
Proof.
  split_and!; [reflexivity|by_running|by_running|].
  apply (generated_names_differ sample_uuid sample_uuid "a.png"
           "/tmp/b.PNG" "3f2a9c1e-7b44-4d0a-9c3e-5a1b2c3d4e5f.png"
           "3f2a9c1e-7b44-4d0a-9c3e-5a1b2c3d4e5f.png");
    [reflexivity|by_running|by_running|by_running|by_running|reflexivity].
Defined.

Lemma generated_name_ignores_case_witness :
  is_ascii "Holiday.JPG" = true
  ∧ generateUniqueFilename sample_uuid (VStr (toLowerCase "Holiday.JPG"))
    = generateUniqueFilename sample_uuid (VStr "Holiday.JPG")
  ∧ ∃ ext, generateUniqueFilename sample_uuid (VStr "Holiday.JPG")
           = Ok (sample_uuid +:+ ext)
           ∧ toLowerCase ext = ext
           ∧ (ext = "" ∨ ∃ e, ext = String dot e).
Proof.
  split; [by_running|].
  exact (generated_name_ignores_case sample_uuid "Holiday.JPG" eq_refl).
Defined.

Lemma processImage_reports_original_dimensions_witness :
  processImage sample_host sample_options sample_world
  = (Ok sample_result,
     state_after (processImage sample_host sample_options) sample_world)
  ∧ ∃ s k d im ko,
      inputPath sample_options = VStr s ∧ resolve sample_host s = Some k ∧
      nodes sample_world !! k = Some (File d) ∧ f_image d = Some im ∧
      md_width (metadata sample_result) = img_width im ∧
      md_height (metadata sample_result) = img_height im ∧
      md_originalFormat (metadata sample_result) = img_format im ∧
      md_format (metadata sample_result) = "webp" ∧
      resolve sample_host (processedPath sample_result) = Some ko ∧
      ∃ written,
        nodes (state_after (processImage sample_host sample_options)
                 sample_world) !! ko = Some (File written)
        ∧ md_size (metadata sample_result) = f_size written
        ∧ written
          = webp_encode sample_host im (default 2000%Z (width sample_options))
              (default 2000%Z (height sample_options))
              (default 85%Z (quality sample_options)).
Proof.
  assert (processImage sample_host sample_options sample_world
          = (Ok sample_result,
             state_after (processImage sample_host sample_options) sample_world))
    as Hrun by by_running.
  split; [exact Hrun|].
  exact (processImage_reports_original_dimensions sample_host sample_options
           sample_world sample_result _ Hrun).
Defined.



Lemma processImage_output_inside_targetDir_witness :
  processImage sample_host sample_options sample_world
  = (Ok sample_result,
     state_after (processImage sample_host sample_options) sample_world)
  ∧ has_slash (js_to_string (baseName sample_options)) = false
  ∧ ∃ dir kt written,
      targetDir sample_options = VStr dir ∧ resolve sample_host dir = Some kt ∧
      resolve sample_host (processedPath sample_result)
      = Some (kt ++ [js_to_string (baseName sample_options) +:+ ".webp"]) ∧
      nodes (state_after (processImage sample_host sample_options) sample_world)
        !! (kt ++ [js_to_string (baseName sample_options) +:+ ".webp"])
      = Some (File written).
Proof.
  assert (processImage sample_host sample_options sample_world
          = (Ok sample_result,
             state_after (processImage sample_host sample_options) sample_world))
    as Hrun by by_running.
  split; [exact Hrun|]. split; [reflexivity|].
  exact (processImage_output_inside_targetDir sample_host sample_options
           sample_world sample_result _ Hrun eq_refl).
Defined.

Lemma processImage_on_its_own_output_witness :
  processImage_entry sample_host self_options stale_world
  = (Ok "/srv/out/a.webp",
     state_after (processImage_entry sample_host self_options) stale_world)
  ∧ lookup_node (nodes stale_world) ["srv"; "out"; "a.webp"]
    = Some (File photo_data)
  ∧ ∃ e w',
      processImage sample_host self_options stale_world = (Throw e, w') ∧
      (nodes w' !! ["srv"; "out"; "a.webp"] = None
       ∨ ∃ wu, fault sample_host wu (OpUnlink (VStr "/srv/out/a.webp")) = Some e).
Proof.
  assert (processImage_entry sample_host self_options stale_world
          = (Ok "/srv/out/a.webp",
             state_after (processImage_entry sample_host self_options)
               stale_world)) as Hentry by by_running.
  split; [exact Hentry|]. split; [by_running|].
  apply (processImage_on_its_own_output sample_host self_options stale_world
           "/srv/out/a.webp" _ "/srv/out/a.webp" ["srv"; "out"; "a.webp"]
           photo_data Hentry); [reflexivity|by_running..].
Defined.

(** The original that is its own output is lost. *)
Example processImage_own_output_lost :
  (processImage sample_host self_options stale_world).1
  = Throw (Error "Cannot use same file for input and output")
  ∧ dir_entries
      (nodes (state_after (processImage sample_host self_options) stale_world))
      ["srv"; "out"] = [].
Proof. split; by_running. Qed.

Lemma getUploadDir_two_levels_below_base_witness :
  getUploadDir sample_host "/srv/temp_photos" (VNum 7) (VStr "m1") sample_world
  = (Ok (VStr "/srv/temp_photos/user_7/memory_m1"),
     state_after (getUploadDir sample_host "/srv/temp_photos" (VNum 7) (VStr "m1"))
       sample_world)
  ∧ ∃ s, VStr "/srv/temp_photos/user_7/memory_m1" = VStr s
         ∧ resolve sample_host s
           = Some (["srv"; "temp_photos"]
                     ++ ["user_" +:+ js_to_string (VNum 7);
                         "memory_" +:+ js_to_string (VStr "m1")])
         ∧ is_Some
             (nodes (state_after
                       (getUploadDir sample_host "/srv/temp_photos" (VNum 7)
                          (VStr "m1")) sample_world)
                !! (["srv"; "temp_photos"]
                      ++ ["user_" +:+ js_to_string (VNum 7);
                          "memory_" +:+ js_to_string (VStr "m1")])).
Proof.
  assert (getUploadDir sample_host "/srv/temp_photos" (VNum 7) (VStr "m1")
            sample_world
          = (Ok (VStr "/srv/temp_photos/user_7/memory_m1"),
             state_after
               (getUploadDir sample_host "/srv/temp_photos" (VNum 7) (VStr "m1"))
               sample_world)) as Hrun by by_running.
  split; [exact Hrun|].
  apply (getUploadDir_two_levels_below_base sample_host "/srv/temp_photos"
           (VNum 7) (VStr "m1") sample_world _ _ ["srv"; "temp_photos"]);
    [by_running|by_running|by_running|exact Hrun].
Defined.

Lemma getUploadDir_separates_witness :
  getUploadDir sample_host "/srv/temp_photos" (VNum 7) (VStr "m1") sample_world
  = (Ok (VStr "/srv/temp_photos/user_7/memory_m1"),
     state_after (getUploadDir sample_host "/srv/temp_photos" (VNum 7) (VStr "m1"))
       sample_world)
  ∧ getUploadDir sample_host "/srv/temp_photos" (VStr "7") (VStr "m1")
      occupied_world
    = (Ok (VStr "/srv/temp_photos/user_7/memory_m1"),
       state_after
         (getUploadDir sample_host "/srv/temp_photos" (VStr "7") (VStr "m1"))
         occupied_world)
  ∧ js_to_string (VNum 7) = js_to_string (VStr "7")
  ∧ js_to_string (VStr "m1") = js_to_string (VStr "m1").
Proof.
  assert (getUploadDir sample_host "/srv/temp_photos" (VNum 7) (VStr "m1")
            sample_world
          = (Ok (VStr "/srv/temp_photos/user_7/memory_m1"),
             state_after
               (getUploadDir sample_host "/srv/temp_photos" (VNum 7) (VStr "m1"))
               sample_world)) as Hrun1 by by_running.
  assert (getUploadDir sample_host "/srv/temp_photos" (VStr "7") (VStr "m1")
            occupied_world
          = (Ok (VStr "/srv/temp_photos/user_7/memory_m1"),
             state_after
               (getUploadDir sample_host "/srv/temp_photos" (VStr "7")
                  (VStr "m1")) occupied_world)) as Hrun2 by by_running.
  split; [exact Hrun1|]. split; [exact Hrun2|].
  apply (getUploadDir_separates sample_host "/srv/temp_photos"
           (VNum 7) (VStr "m1") (VStr "7") (VStr "m1")
           sample_world _ _ occupied_world _ _ ["srv"; "temp_photos"]
           ltac:(by_running) ltac:(by_running) ltac:(by_running)
           ltac:(by_running) ltac:(by_running) Hrun1 Hrun2 eq_refl).
Defined.

Lemma deleteFiles_only_removes_named_files_witness :
  nodes sample_world !! ["srv"; "out"] = Some Dir
  ∧ nodes (state_after
             (deleteFiles sample_host (VArr [VStr "/srv/in/a.jpg"; VNull; VStr "out"]))
             sample_world) !! ["srv"; "out"] = Some Dir
  ∧ nodes (state_after
             (deleteFiles sample_host (VArr [VStr "/srv/in/a.jpg"; VNull; VStr "out"]))
             sample_world) !! ["srv"; "in"]
    = nodes sample_world !! ["srv"; "in"].
Proof.
  split; [by_running|]. split.
  - destruct (deleteFiles_only_removes_named_files sample_host
                (VArr [VStr "/srv/in/a.jpg"; VNull; VStr "out"]) sample_world
                ["srv"; "out"]) as (_ & Hdir & _).
    apply Hdir. by_running.
  - destruct (deleteFiles_only_removes_named_files sample_host
                (VArr [VStr "/srv/in/a.jpg"; VNull; VStr "out"]) sample_world
                ["srv"; "in"]) as (_ & _ & Hout).
    apply Hout. intros s Hin.
    repeat (apply elem_of_cons in Hin as [Heq|Hin];
            [simplify_eq; vm_compute; discriminate|]).
    by apply elem_of_nil in Hin.
Defined.


Lemma deleteFileAndEmptyParent_footprint_witness :
  (∀ n, nodes (state_after
                 (deleteFileAndEmptyParent sample_host (VStr "/srv/in/a.jpg"))
                 sample_world) !! ["srv"; "out"] = Some n →
        nodes sample_world !! ["srv"; "out"] = Some n)
  ∧ nodes (state_after
             (deleteFileAndEmptyParent sample_host (VStr "/srv/in/a.jpg"))
             sample_world) !! ["srv"; "out"]
    = nodes sample_world !! ["srv"; "out"].
Proof.
  destruct (deleteFileAndEmptyParent_footprint sample_host
              (VStr "/srv/in/a.jpg") sample_world
              (deleteFileAndEmptyParent sample_host (VStr "/srv/in/a.jpg")
                 sample_world).1
              (state_after
                 (deleteFileAndEmptyParent sample_host (VStr "/srv/in/a.jpg"))
                 sample_world)
              ["srv"; "out"]) as [Hsub Hout].
  - unfold state_after. by destruct (deleteFileAndEmptyParent _ _ _).
  - split; [exact Hsub|]. apply Hout.
    intros s [= <-]. split; vm_compute; discriminate.
Defined.


Lemma deleting_nothing_is_silent_witness :
  deleteFiles sample_host (VArr [VNull; VStr ""; VNum 3; VUndefined])
    sample_world = (Ok tt, sample_world)
  ∧ deleteFile sample_host VUndefined sample_world = (Ok false, sample_world)
  ∧ deleteFileAndEmptyParent sample_host VUndefined sample_world
    = (Ok tt, sample_world).
Proof.
  apply (deleting_nothing_is_silent sample_host
           (VArr [VNull; VStr ""; VNum 3; VUndefined]) VUndefined sample_world);
    [repeat constructor|reflexivity].
Defined.

Lemma ensureDirectoriesExist_no_failure_all_present_witness :
  ensureDirectoriesExist sample_host
    [VStr "/srv/out"; VStr "/srv/new/deep"; VStr "in/a.jpg"] defaults
    sample_world
  = (Ok {| created := 1; existing := 2; failed := 0 |},
     state_after
       (ensureDirectoriesExist sample_host
          [VStr "/srv/out"; VStr "/srv/new/deep"; VStr "in/a.jpg"] defaults)
       sample_world)
  ∧ Forall
      (λ dir,
         path_exists sample_host
           (nodes (state_after
                     (ensureDirectoriesExist sample_host
                        [VStr "/srv/out"; VStr "/srv/new/deep"; VStr "in/a.jpg"]
                        defaults) sample_world)) dir = true)
      [VStr "/srv/out"; VStr "/srv/new/deep"; VStr "in/a.jpg"].
Proof.
  assert (ensureDirectoriesExist sample_host
            [VStr "/srv/out"; VStr "/srv/new/deep"; VStr "in/a.jpg"] defaults
            sample_world
          = (Ok {| created := 1; existing := 2; failed := 0 |},
             state_after
               (ensureDirectoriesExist sample_host
                  [VStr "/srv/out"; VStr "/srv/new/deep"; VStr "in/a.jpg"]
                  defaults) sample_world)) as Hrun by by_running.
  split; [exact Hrun|].
  exact (ensureDirectoriesExist_no_failure_all_present sample_host _ _ _ _ _
           Hrun eq_refl).
Defined.
